(** * EIS ingestion and impedance feature engineering ([src/utils.py])

    A shallow embedding of the pipeline of [src/utils.py]:
    - [parse_eis_filename]  : file name -> test identity,
    - [load_single_eis]     : raw sheet -> cleaned three-column spectrum,
    - [load_all_eis]        : index of files -> long-format table,
    - [compute_impedance_features] : one spectrum -> dictionary of features,
    - [build_impedance_feature_table] : long-format table -> feature table.

    Python exceptions are values of [exn]; a function that can raise returns
    [result A = exn + A].  float64 numbers are Rocq's primitive binary64
    floats, so comparisons, subtraction and absolute value are the IEEE 754
    operations numpy performs.  Python dictionaries are association lists in
    insertion order.  What pandas and numpy compute inside (parsing a text
    cell, sorting a frame, magnitude, phase, mean and the like) is taken
    from a [Library], for which the sort is only known to return the rows
    in ascending order. *)

From Stdlib Require Import ZArith List String Ascii Bool Lia.
From Stdlib Require Import Decimal DecimalString DecimalPos DecimalZ.
From Stdlib Require Import Floats.
From Stdlib Require Import Permutation Sorted FinFun.
Import ListNotations.

#[local] Open Scope string_scope.
#[local] Open Scope Z_scope.

(* ------------------------------------------------------------------ *)
(** * Exceptions and results *)

Inductive exn : Type :=
| ValueError (msg : string)
| IndexError (msg : string).

Definition result (A : Type) : Type := (exn + A)%type.

Definition ret {A} (a : A) : result A := inr a.
Definition raise {A} (e : exn) : result A := inl e.

Definition bind {A B} (m : result A) (k : A -> result B) : result B :=
  match m with
  | inl e => inl e
  | inr a => k a
  end.

Notation "x <- m ;; k" := (bind m (fun x => k))
  (at level 61, m at next level, right associativity).

Definition raises {A} (m : result A) : Prop := exists e, m = inl e.

(* ------------------------------------------------------------------ *)
(** * Python string operations used by the decoder *)

Module Py.

(** [s.startswith(p)] *)
Fixpoint startswith (p s : string) : bool :=
  match p, s with
  | EmptyString, _ => true
  | String a p', String b s' => Ascii.eqb a b && startswith p' s'
  | String _ _, EmptyString => false
  end.

(** [s.replace(old, new)] for a non-empty [old]: scan left to right; at a
    position where [old] starts, emit [new] and skip the rest of the
    occurrence ([skip] counts the characters still to skip). *)
Fixpoint replace_go (old new s : string) (skip : nat) : string :=
  match s with
  | EmptyString => EmptyString
  | String c r =>
      match skip with
      | S k => replace_go old new r k
      | O =>
          if startswith old s
          then new ++ replace_go old new r (String.length old - 1)
          else String c (replace_go old new r 0)
      end
  end.

Definition replace (old new s : string) : string := replace_go old new s 0.

(** [s.split(sep)] for a one-character separator: always at least one
    field, empty fields are kept. *)
Fixpoint split (sep : ascii) (s : string) : list string :=
  match s with
  | EmptyString => [EmptyString]
  | String c r =>
      if Ascii.eqb c sep then EmptyString :: split sep r
      else match split sep r with
           | h :: t => String c h :: t
           | [] => [String c EmptyString]
           end
  end.

(** [s.rfind(c)]: index of the last occurrence of [c]. *)
Fixpoint rfind (c : ascii) (s : string) : option nat :=
  match s with
  | EmptyString => None
  | String a r =>
      match rfind c r with
      | Some i => Some (S i)
      | None => if Ascii.eqb a c then Some O else None
      end
  end.

(** The white space [int()] strips around a number, a character being a
    code point below 256: the tab, the four line controls and the blank
    (9 to 13 and 32), which CPython's [Py_ISSPACE] accepts, and the two
    white-space code points above ASCII, U+0085 and U+00A0, which [int()]
    turns into blanks before it reads the number.  The separators 28 to
    31 are white space for [str.isspace] but not here: [int()] refuses
    them. *)
Definition isspace (c : ascii) : bool :=
  let n := nat_of_ascii c in
  ((9 <=? n) && (n <=? 13) || (n =? 32) || (n =? 133) || (n =? 160))%nat.

Fixpoint lstrip (s : string) : string :=
  match s with
  | EmptyString => EmptyString
  | String c r => if isspace c then lstrip r else s
  end.

Fixpoint rstrip (s : string) : string :=
  match s with
  | EmptyString => EmptyString
  | String c r =>
      match rstrip r with
      | EmptyString => if isspace c then EmptyString else String c EmptyString
      | r' => String c r'
      end
  end.

Definition strip (s : string) : string := rstrip (lstrip s).

(** One decimal digit in front of an already parsed tail. *)
Definition digit (c : ascii) : option (uint -> uint) :=
  match c with
  | "0" => Some D0 | "1" => Some D1 | "2" => Some D2 | "3" => Some D3
  | "4" => Some D4 | "5" => Some D5 | "6" => Some D6 | "7" => Some D7
  | "8" => Some D8 | "9" => Some D9
  | _ => None
  end%char.

(** The digits of an integer literal: at least one digit, single
    underscores allowed between digits only.  [after_digit] tells whether
    the previous character was a digit. *)
Fixpoint digits (s : string) (after_digit : bool) : option uint :=
  match s with
  | EmptyString => if after_digit then Some Nil else None
  | String c r =>
      match digit c with
      | Some d => option_map d (digits r true)
      | None =>
          if Ascii.eqb c "_" && after_digit
          then match r with
               | EmptyString => None
               | String c' _ =>
                   match digit c' with
                   | Some _ => digits r false
                   | None => None
                   end
               end
          else None
      end
  end.

(** [int(s)] in base 10: surrounding white space, an optional sign
    directly in front of the digits, leading zeros allowed.  [None] stands
    for the [ValueError] Python raises.

    The strings of the model are made of code points below 256, among
    which the decimal digits are the ten ASCII ones; the decimal digits of
    other scripts, which [int()] reads as well, cannot be written in them.
    CPython also refuses a numeral of more than 4300 digits (an
    interpreter setting); this limit is left out, a file name being
    shorter than that. *)
Definition int (s : string) : option Z :=
  match strip s with
  | String "+" r => option_map Z.of_uint (digits r false)
  | String "-" r => option_map (fun d => Z.opp (Z.of_uint d)) (digits r false)
  | t => option_map Z.of_uint (digits t false)
  end.

(** [str(z)] for an integer. *)
Definition str_int (z : Z) : string := NilEmpty.string_of_int (Z.to_int z).

End Py.

(* ------------------------------------------------------------------ *)
(** * Filename decoder *)

(** The five integers of the dictionary returned by [parse_eis_filename];
    the [filepath] entry is the argument itself and is kept by the caller. *)
Record TestIdentity : Type := mkIdentity {
  cell_id : Z;
  soh_pct : Z;
  temp_c : Z;
  soc_pct : Z;
  capacity_code : Z
}.

(** [path.stem] of [pathlib], on the final component [name] of the path:
    the name without its last suffix, a suffix being a dot that is neither
    the first nor the last character, and what follows it. *)
Definition stem (name : string) : string :=
  match Py.rfind "." name with
  | Some i =>
      if (0 <? i)%nat && (i <? String.length name - 1)%nat
      then String.substring 0 i name
      else name
  | None => name
  end.

Definition int_or_raise (s : string) : result Z :=
  match Py.int s with
  | Some z => ret z
  | None => raise (ValueError ("invalid literal for int() with base 10: " ++ s))
  end.

(** [parse_eis_filename(path)], on the name of the path. *)
Definition parse_eis_filename (name : string) : result TestIdentity :=
  let parts := Py.split "_" (stem name) in
  match parts with
  | [cell_str; soh_str; temp_str; soc_str; cap_str] =>
      cell <- int_or_raise (Py.replace "Cell" "" cell_str) ;;
      soh <- int_or_raise (Py.replace "SOH" "" soh_str) ;;
      temp <- int_or_raise (Py.replace "degC" "" temp_str) ;;
      soc <- int_or_raise (Py.replace "SOC" "" soc_str) ;;
      cap <- int_or_raise cap_str ;;
      ret (mkIdentity cell soh temp soc cap)
  | _ => raise (ValueError ("Unexpected EIS filename format: " ++ name))
  end.

(* ------------------------------------------------------------------ *)
(** * Rows of a spectrum *)

Inductive column : Type := Frequency | ZReal | ZImag.

(** One row of the three-column frame, over cells as it is read and over
    floats once the columns are float64. *)
Record Row3 (A : Type) : Type := mkRow3 {
  frequency_hz : A;
  z_real_ohm : A;
  z_imag_ohm : A
}.
Arguments mkRow3 {A}.
Arguments frequency_hz {A}.
Arguments z_real_ohm {A}.
Arguments z_imag_ohm {A}.

Definition SpectrumPoint : Type := Row3 float.

(** [row[c]] *)
Definition get {A} (c : column) (r : Row3 A) : A :=
  match c with
  | Frequency => frequency_hz r
  | ZReal => z_real_ohm r
  | ZImag => z_imag_ohm r
  end.

Definition columns3 : list column := [Frequency; ZReal; ZImag].

(** The order of an ascending sort of float64 keys with
    [na_position="last"]: the order of the numbers, NaN after every
    number. *)
Definition freq_le (a b : float) : bool :=
  if is_nan b then true else if is_nan a then false else (a <=? b)%float.

(** Two rows in ascending order of frequency. *)
Definition freq_order (p q : SpectrumPoint) : Prop :=
  freq_le (frequency_hz p) (frequency_hz q) = true.

(* ------------------------------------------------------------------ *)
(** * Library functions taken as given

    The text-to-float parser of [pd.to_numeric], the sort behind
    [DataFrame.sort_values] and the numerical kernels of numpy are not
    part of the repository.  They are the fields of [Library]; every
    definition below that calls one takes the instance as an argument,
    and every theorem holds for all instances. *)

Class Library : Type := {
  (** the float a text cell parses to, if it is a numeral *)
  floatify : string -> option float;
  (** [group.sort_values("frequency_hz")]: the rows of the group, each
      one once, in ascending order of frequency with NaN last.  pandas
      sorts with numpy's quicksort, which is not stable: the order in
      which it leaves rows of equal frequency is not fixed by their order
      of arrival, and nothing is assumed about it. *)
  sort_values : list SpectrumPoint -> list SpectrumPoint;
  sort_values_perm : forall group, Permutation (sort_values group) group;
  sort_values_sorted : forall group, Sorted freq_order (sort_values group);
  (** [np.abs] and [np.angle] of a complex number (real part, imaginary
      part) *)
  np_abs : float * float -> float;
  np_angle : float * float -> float;
  (** [a.mean()], [a.std()], [a.min()], [a.max()] on a non-empty array *)
  np_mean : list float -> float;
  np_std : list float -> float;
  np_min : list float -> float;
  np_max : list float -> float
}.

(* ------------------------------------------------------------------ *)
(** * Spectrum loader *)

(** A cell of the sheet as [pd.read_excel(path, header=None)] hands it
    over: a number, a text, or nothing (empty and error cells are read as
    NaN).  Sheets of impedance data hold nothing else; boolean and date
    cells are left out of the model. *)
Inductive cell : Type :=
| Number (f : float)
| Text (s : string)
| Missing.

(** The sheet: its number of columns and its rows; a row shorter than
    [ncols] is padded with missing cells. *)
Record Sheet : Type := mkSheet {
  ncols : nat;
  body : list (list cell)
}.

(** [df.iloc[:, :3]] followed by the assignment of three column names,
    which raises when the sheet has fewer than three columns. *)
Definition first3 (r : list cell) : Row3 cell :=
  mkRow3 (nth 0 r Missing) (nth 1 r Missing) (nth 2 r Missing).

Definition first_three_columns (s : Sheet) : result (list (Row3 cell)) :=
  if (ncols s <? 3)%nat
  then raise (ValueError "Length mismatch: new values have 3 elements")
  else ret (map first3 (body s)).

Section Loader.
Context {L : Library}.

(** [pd.to_numeric(., errors="coerce")] on one cell: what cannot be read
    as a number becomes NaN. *)
Definition to_numeric (c : cell) : float :=
  match c with
  | Number f => f
  | Text s => match floatify s with Some f => f | None => nan end
  | Missing => nan
  end.

Definition coerce_row (r : Row3 cell) : SpectrumPoint :=
  mkRow3 (to_numeric (frequency_hz r)) (to_numeric (z_real_ohm r))
         (to_numeric (z_imag_ohm r)).

(** The loop [for col in [...]: df[col] = pd.to_numeric(df[col],
    errors="coerce")]: each of the three columns is replaced by its
    coercion, cell by cell, and is a float64 column afterwards. *)
Definition coerce_columns (df : list (Row3 cell)) : list (Row3 float) :=
  map coerce_row df.

(** [df.dropna(subset=cols)] on float64 columns *)
Definition dropna (cols : list column) (df : list (Row3 float))
  : list (Row3 float) :=
  filter (fun r => negb (existsb (fun c => is_nan (get c r)) cols)) df.

(** [df.astype({..: float})]: the three columns are float64 already. *)
Definition astype_float (df : list (Row3 float)) : list SpectrumPoint := df.

(** [load_single_eis], from the sheet [pd.read_excel] returned; a file
    that cannot be read makes [pd.read_excel] raise before any of this
    runs. *)
Definition load_single_eis (s : Sheet) : result (list SpectrumPoint) :=
  df <- first_three_columns s ;;
  let df := coerce_columns df in
  let df := dropna columns3 df in
  let df := astype_float df in
  ret df.

(** ** The cleaning read row by row

    The reading of the specification: a cell coerces to a numeric value
    when [pd.to_numeric] gives a number for it, a row is valid when its
    three cells do, and the spectrum is made of the valid rows with
    their coerced values. *)

Definition numeric (c : cell) : bool := negb (is_nan (to_numeric c)).

Definition row_numeric (r : Row3 cell) : bool :=
  numeric (frequency_hz r) && numeric (z_real_ohm r) && numeric (z_imag_ohm r).

Definition valid_rows (s : Sheet) : list SpectrumPoint :=
  map coerce_row (filter row_numeric (map first3 (body s))).

End Loader.

(* ------------------------------------------------------------------ *)
(** * Long-format table *)

Record LongRow : Type := mkLongRow {
  identity : TestIdentity;
  point : SpectrumPoint
}.

Section Assembler.
Context {L : Library}.

(** The loop of [load_all_eis]: load each sheet, attach the metadata of
    its index entry to every row. *)
Fixpoint load_records (index : list (TestIdentity * Sheet))
  : result (list (list LongRow)) :=
  match index with
  | [] => ret []
  | (meta, sheet) :: rest =>
      spec <- load_single_eis sheet ;;
      let spec := map (mkLongRow meta) spec in
      all_records <- load_records rest ;;
      ret (spec :: all_records)
  end.

(** [load_all_eis]; [pd.concat] raises on an empty list of frames. *)
Definition load_all_eis (index : list (TestIdentity * Sheet))
  : result (list LongRow) :=
  all_records <- load_records index ;;
  match all_records with
  | [] => raise (ValueError "No objects to concatenate")
  | _ => ret (List.concat all_records)
  end.

End Assembler.

(* ------------------------------------------------------------------ *)
(** * numpy and dictionary operations of the feature extractor *)

#[local] Set Warnings "-inexact-float".

(** [np.argmax]: the first index of a maximum, or of the first NaN. *)
Fixpoint argmax_go (l : list float) (i : nat) (mp : float) (mi : nat) : nat :=
  match l with
  | [] => mi
  | x :: r =>
      if negb (x <=? mp)%float
      then (if is_nan x then i else argmax_go r (S i) x i)
      else argmax_go r (S i) mp mi
  end.

Definition argmax (a : list float) : result nat :=
  match a with
  | [] => raise (ValueError "attempt to get argmax of an empty sequence")
  | x :: r => ret (if is_nan x then O else argmax_go r 1 x 0)
  end.

(** [np.argmin]: the first index of a minimum, or of the first NaN. *)
Fixpoint argmin_go (l : list float) (i : nat) (mp : float) (mi : nat) : nat :=
  match l with
  | [] => mi
  | x :: r =>
      if negb (mp <=? x)%float
      then (if is_nan x then i else argmin_go r (S i) x i)
      else argmin_go r (S i) mp mi
  end.

Definition argmin (a : list float) : result nat :=
  match a with
  | [] => raise (ValueError "attempt to get argmin of an empty sequence")
  | x :: r => ret (if is_nan x then O else argmin_go r 1 x 0)
  end.

(** [a[i]] *)
Definition item (a : list float) (i : nat) : result float :=
  match nth_error a i with
  | Some x => ret x
  | None => raise (IndexError "index out of bounds")
  end.

(** [z_real + 1j * z_imag] in complex128 arithmetic: both operands of the
    product and the real summand are complex numbers with a zero part. *)
Definition z_complex (re im : float) : float * float :=
  let prod_re := (zero * im - one * zero)%float in
  let prod_im := (zero * zero + one * im)%float in
  ((re + prod_re)%float, (zero + prod_im)%float).

(** [np.abs(freq - f_target)] on one entry. *)
Definition distance (f_target f : float) : float := abs (f - f_target)%float.

(** A dictionary, in insertion order. *)
Definition dict (V : Type) : Type := list (string * V).

(** [d[k] = v] *)
Fixpoint setitem {V} (k : string) (v : V) (d : dict V) : dict V :=
  match d with
  | [] => [(k, v)]
  | (k', v') :: r =>
      if String.eqb k' k then (k', v) :: r else (k', v') :: setitem k v r
  end.

Fixpoint getitem {V} (k : string) (d : dict V) : option V :=
  match d with
  | [] => None
  | (k', v') :: r => if String.eqb k' k then Some v' else getitem k r
  end.

Definition keys {V} (d : dict V) : list string := map fst d.

(** [d.update(e)] *)
Definition update {V} (d e : dict V) : dict V :=
  fold_left (fun d kv => setitem (fst kv) (snd kv) d) e d.

(** A float literal of the source with its [str()]. *)
Record literal : Type := mkLiteral {
  lit_value : float;
  lit_str : string
}.

Definition f_targets : list literal :=
  [ mkLiteral 0.01 "0.01"; mkLiteral 0.1 "0.1"; mkLiteral 1.0 "1.0";
    mkLiteral 10.0 "10.0"; mkLiteral 100.0 "100.0";
    mkLiteral 1000.0 "1000.0"; mkLiteral 10000.0 "10000.0" ]%float.

(** [str(f_target).replace(".", "p")] *)
Definition suffix_of (t : literal) : string := Py.replace "." "p" (lit_str t).

(* ------------------------------------------------------------------ *)
(** * Feature extractor *)

Section Features.
Context {L : Library}.

(** The loop over the target frequencies. *)
Fixpoint sample_targets (targets : list literal) (freq mag phase : list float)
  (features : dict float) : result (dict float) :=
  match targets with
  | [] => ret features
  | f_target :: rest =>
      idx <- argmin (map (distance (lit_value f_target)) freq) ;;
      let suffix := suffix_of f_target in
      m <- item mag idx ;;
      let features := setitem ("Zmag_f" ++ suffix) m features in
      ph <- item phase idx ;;
      let features := setitem ("phase_f" ++ suffix) ph features in
      sample_targets rest freq mag phase features
  end.

Definition compute_impedance_features (group : list SpectrumPoint)
  : result (dict float) :=
  let g := sort_values group in
  let freq := map frequency_hz g in
  let z_real := map z_real_ohm g in
  let z_cplx := map (fun p => z_complex (z_real_ohm p) (z_imag_ohm p)) g in
  let mag := map np_abs z_cplx in
  let phase := map np_angle z_cplx in
  idx_hf <- argmax freq ;;
  idx_lf <- argmin freq ;;
  R_hf <- item z_real idx_hf ;;
  R_lf <- item z_real idx_lf ;;
  let features :=
    [ ("R_hf_ohm", R_hf);
      ("R_lf_ohm", R_lf);
      ("delta_R_ohm", (R_lf - R_hf)%float);
      ("Zmag_mean", np_mean mag);
      ("Zmag_std", np_std mag);
      ("Zmag_min", np_min mag);
      ("Zmag_max", np_max mag);
      ("phase_mean", np_mean phase);
      ("phase_std", np_std phase) ] in
  sample_targets f_targets freq mag phase features.

End Features.

(* ------------------------------------------------------------------ *)
(** * Feature table builder *)

Definition GROUP_COLS : list string :=
  ["cell_id"; "soh_pct"; "temp_c"; "soc_pct"].

(** The values of the grouping columns of one row, in the order of
    [GROUP_COLS]. *)
Definition group_key : Type := list Z.

Definition key_of (r : LongRow) : group_key :=
  let i := identity r in [cell_id i; soh_pct i; temp_c i; soc_pct i].

Fixpoint key_eqb (a b : group_key) : bool :=
  match a, b with
  | [], [] => true
  | x :: a', y :: b' => (x =? y) && key_eqb a' b'
  | _, _ => false
  end.

(** Lexicographic order of the key tuples. *)
Fixpoint key_ltb (a b : group_key) : bool :=
  match a, b with
  | [], _ :: _ => true
  | x :: a', y :: b' => (x <? y) || ((x =? y) && key_ltb a' b')
  | _, [] => false
  end.

Fixpoint insert_key (k : group_key) (ks : list group_key) : list group_key :=
  match ks with
  | [] => [k]
  | h :: t =>
      if key_eqb k h then ks
      else if key_ltb k h then k :: ks
      else h :: insert_key k t
  end.

(** The distinct keys of the table, ascending. *)
Definition group_keys (df : list LongRow) : list group_key :=
  fold_left (fun ks r => insert_key (key_of r) ks) df [].

(** [df.groupby(GROUP_COLS)], iterated: the groups in ascending key order,
    each with its rows in table order. *)
Definition groupby (df : list LongRow) : list (group_key * list LongRow) :=
  map (fun k => (k, filter (fun r => key_eqb (key_of r) k) df)) (group_keys df).

Inductive value : Type :=
| VInt (z : Z)
| VFloat (f : float).

(** [dict(zip(names, vals))] *)
Definition dict_zip (names : list string) (vals : list Z) : dict value :=
  update [] (combine names (map VInt vals)).

(** [pd.DataFrame(records)]: the columns are the keys of the records in
    order of first appearance. *)
Record DataFrame : Type := mkDataFrame {
  columns : list string;
  records : list (dict value)
}.

Definition add_columns (cols : list string) (record : dict value)
  : list string :=
  fold_left
    (fun cols k => if existsb (String.eqb k) cols then cols else (cols ++ [k])%list)
    (keys record) cols.

Definition DataFrame_of_records (recs : list (dict value)) : DataFrame :=
  mkDataFrame (fold_left add_columns recs []) recs.

Section Builder.
Context {L : Library}.

(** The loop of [build_impedance_feature_table] over the groups. *)
Fixpoint feature_records (groups : list (group_key * list LongRow))
  : result (list (dict value)) :=
  match groups with
  | [] => ret []
  | (ks, group) :: rest =>
      feats <- compute_impedance_features (map point group) ;;
      let record := dict_zip GROUP_COLS ks in
      let record := update record (map (fun kv => (fst kv, VFloat (snd kv))) feats) in
      recs <- feature_records rest ;;
      ret (record :: recs)
  end.

Definition build_impedance_feature_table (eis_long_df : list LongRow)
  : result DataFrame :=
  recs <- feature_records (groupby eis_long_df) ;;
  ret (DataFrame_of_records recs).

End Builder.

(** The key of a feature record: the values under [GROUP_COLS]. *)
Definition record_key (record : dict value) : list (option value) :=
  map (fun c => getitem c record) GROUP_COLS.

(* ------------------------------------------------------------------ *)
(** * The parts of a small instance of the library, to run the model

    The properties hold for every instance of [Library]; the instance
    made of these parts, [plain_library], serves to evaluate the model on
    the sample inputs. *)

Definition float_of_uint (d : uint) : float :=
  of_uint63 (Uint63.of_Z (Z.of_uint d)).

(** Text cells are numerals when they are an infinity word or a plain
    decimal integer below 2^53 with an optional minus sign. *)
Definition floatify_plain (s : string) : option float :=
  if existsb (String.eqb s) ["inf"; "+inf"; "Infinity"; "+Infinity"]
  then Some infinity
  else if existsb (String.eqb s) ["-inf"; "-Infinity"] then Some neg_infinity
  else
    let parse (t : string) : option float :=
      match NilZero.uint_of_string t with
      | Some d => if Z.of_uint d <? 2 ^ 53 then Some (float_of_uint d) else None
      | None => None
      end in
    match s with
    | String "-" r => option_map opp (parse r)
    | _ => parse s
    end.

Definition sum_floats (a : list float) : float :=
  fold_left add a zero.

Definition mean_plain (a : list float) : float :=
  (sum_floats a / of_uint63 (Uint63.of_Z (Z.of_nat (List.length a))))%float.

Definition reduce_plain (pick : float -> float -> bool) (a : list float) : float :=
  match a with
  | [] => nan
  | x :: r => fold_left (fun m y => if is_nan m then m else
                                    if is_nan y then y else
                                    if pick y m then y else m) r x
  end.

(** Magnitudes by the textbook formula; the phase is given on the
    positive real axis only, primitive floats having no arctangent; sums
    from left to right. *)
Definition abs_plain (z : float * float) : float :=
  sqrt (fst z * fst z + snd z * snd z)%float.

Definition angle_plain (z : float * float) : float :=
  if (snd z =? zero)%float && (zero <=? fst z)%float then zero else nan.

Definition std_plain (a : list float) : float :=
  let m := mean_plain a in
  sqrt (mean_plain (map (fun x => (x - m) * (x - m))%float a)).

(** One sort among those [sort_values] may be: the insertion sort, which
    happens to keep rows of equal frequency in their order of arrival. *)
Fixpoint insert_point (p : SpectrumPoint) (l : list SpectrumPoint)
  : list SpectrumPoint :=
  match l with
  | [] => [p]
  | q :: r =>
      if freq_le (frequency_hz p) (frequency_hz q) then p :: l
      else q :: insert_point p r
  end.

Fixpoint insertion_sort (group : list SpectrumPoint) : list SpectrumPoint :=
  match group with
  | [] => []
  | p :: r => insert_point p (insertion_sort r)
  end.

(* ------------------------------------------------------------------ *)
(** * The identifier format of the specification *)

Fixpoint str_forall (p : ascii -> bool) (s : string) : bool :=
  match s with
  | EmptyString => true
  | String c r => p c && str_forall p r
  end.

Definition is_digit (c : ascii) : bool :=
  match Py.digit c with Some _ => true | None => false end.

(** The characters of a printed integer. *)
Definition is_numchar (c : ascii) : bool := is_digit c || Ascii.eqb c "-".

(** An [<int>] of the format: one or more decimal digits. *)
Definition all_digits (s : string) : bool :=
  negb (String.eqb s "") && str_forall is_digit s.

(** [tag<int>] and [<int>tag] *)
Definition tag_then_int (tag s : string) : bool :=
  Py.startswith tag s
  && all_digits (substring (String.length tag)
                           (String.length s - String.length tag) s).

Definition int_then_tag (tag s : string) : bool :=
  let n := (String.length s - String.length tag)%nat in
  all_digits (substring 0 n s)
  && String.eqb (substring n (String.length tag) s) tag.

(** The literal format [Cell<int>_<int>SOH_<int>degC_<int>SOC_<int>.<ext>]. *)
Definition matches_format (name : string) : bool :=
  match Py.split "." name with
  | [base; ext] =>
      negb (String.eqb ext "")
      && match Py.split "_" base with
         | [a; b; c; d; e] =>
             tag_then_int "Cell" a && int_then_tag "SOH" b
             && int_then_tag "degC" c && int_then_tag "SOC" d
             && all_digits e
         | _ => false
         end
  | _ => false
  end.

Definition extension (name : string) : string :=
  match Py.split "." name with
  | [_; ext] => ext
  | _ => ""
  end.

(** Modelled from the spec: the re-encoder of the round-trip property,
    which the repository does not have.  It fills the template
    [Cell<int>_<int>SOH_<int>degC_<int>SOC_<int>.<ext>] with the five
    integers as [str] prints them. *)
Definition encode_eis_filename (id : TestIdentity) (ext : string) : string :=
  "Cell" ++ Py.str_int (cell_id id) ++ "_"
  ++ Py.str_int (soh_pct id) ++ "SOH_"
  ++ Py.str_int (temp_c id) ++ "degC_"
  ++ Py.str_int (soc_pct id) ++ "SOC_"
  ++ Py.str_int (capacity_code id) ++ "." ++ ext.

(* ------------------------------------------------------------------ *)
(** * Vocabulary of the properties *)

(** The keys after [d[k] = v]: unchanged when [k] is there, [k] added at
    the end otherwise. *)
Definition add_key (k : string) (ks : list string) : list string :=
  if existsb (String.eqb k) ks then ks else (ks ++ [k])%list.

(** The index [np.argmin] selects for a target, [0] standing in where it
    raises. *)
Definition nearest (freq : list float) (t : literal) : nat :=
  match argmin (map (distance (lit_value t)) freq) with
  | inr i => i
  | inl _ => O
  end.

Definition Zmag_key (t : literal) : string := "Zmag_f" ++ suffix_of t.
Definition phase_key (t : literal) : string := "phase_f" ++ suffix_of t.

(** The dictionary after the loop over the targets, given the two values
    stored for each target. *)
Definition sampled_with (vm vp : literal -> float) (targets : list literal)
  (features : dict float) : dict float :=
  fold_left
    (fun d t => setitem (phase_key t) (vp t) (setitem (Zmag_key t) (vm t) d))
    targets features.

Definition summary_keys : list string :=
  [ "R_hf_ohm"; "R_lf_ohm"; "delta_R_ohm"; "Zmag_mean"; "Zmag_std";
    "Zmag_min"; "Zmag_max"; "phase_mean"; "phase_std" ].

Definition target_keys : list string :=
  flat_map (fun t => [Zmag_key t; phase_key t]) f_targets.

Definition feature_keys : list string := (summary_keys ++ target_keys)%list.

Definition key_lt (a b : group_key) : Prop := key_ltb a b = true.

(** A key tuple as it is stored in a feature record. *)
Definition stored_key (k : group_key) : list (option value) :=
  map (fun z => Some (VInt z)) k.


Definition table_columns : list string := (GROUP_COLS ++ feature_keys)%list.

(* ------------------------------------------------------------------ *)
(** * Sample inputs *)

(** Three raw rows, the second a header line repeated inside the table. *)
Definition sheet_with_inner_header : Sheet :=
  mkSheet 3 [ [Number 1000; Number 0.5; Number (-0.25)];
              [Text "Freq"; Text "Re"; Text "Im"];
              [Number 10; Number 0.75; Number (-0.5)] ]%float.

(** A spectrum with the frequencies 0.005, 0.02 and 50000 Hz, given out
    of order. *)
Definition sparse_spectrum (p1 p2 p3 : float * float) : list SpectrumPoint :=
  [ mkRow3 50000 (fst p3) (snd p3);
    mkRow3 0.005 (fst p1) (snd p1);
    mkRow3 0.02 (fst p2) (snd p2) ]%float.

(** The file name of the docstring, and the same test written without
    zero padding. *)
Definition padded_name : string := "Cell02_95SOH_15degC_05SOC_9505.xls".
Definition plain_name : string := "Cell2_95SOH_15degC_5SOC_9505.xls".

(** A file name with five numbers and no tag at all. *)
Definition untagged_name : string := "2_95_15_5_9505.xls".

(** The sparse spectrum with concrete impedances. *)
Definition sparse_example : list SpectrumPoint :=
  sparse_spectrum (3, -1)%float (2, -0.5)%float (1, -0.25)%float.

(** The target 0.01 Hz. *)
Definition target_0p01 : literal := mkLiteral 0.01 "0.01".

(** Two points at the same distance, 0.5 Hz, of the target 1 Hz, the one
    above the target given first. *)
Definition tied_spectrum (p1 p2 : float * float) : list SpectrumPoint :=
  [ mkRow3 1.5 (fst p2) (snd p2);
    mkRow3 0.5 (fst p1) (snd p1) ]%float.

(** Four rows, two at 10 Hz and two at 1 Hz, told apart by their real
    parts 1, 2, 3 and 4. *)
Definition rows_of_equal_frequency : list SpectrumPoint :=
  [ mkRow3 10 1 0; mkRow3 10 2 0; mkRow3 1 3 0; mkRow3 1 4 0 ]%float.

(** Rows of two tests, those of the first test with two capacity codes
    and the row of the second test between them. *)
Definition two_tests : list LongRow :=
  [ mkLongRow (mkIdentity 1 100 25 50 1000) (mkRow3 1000 0.5 (-0.25));
    mkLongRow (mkIdentity 2 100 25 50 1000) (mkRow3 100 4 (-2));
    mkLongRow (mkIdentity 1 100 25 50 1001) (mkRow3 10 0.75 (-0.5)) ]%float.

(** Two tests that differ in their capacity code only, one row each. *)
Definition two_capacity_codes : list LongRow :=
  [ mkLongRow (mkIdentity 1 100 25 50 1000) (mkRow3 1000 0.5 (-0.25));
    mkLongRow (mkIdentity 1 100 25 50 1001) (mkRow3 10 0.75 (-0.5)) ]%float.

(** The sheets of two files named after the same test but for the
    capacity code. *)
Definition two_files : list (string * Sheet) :=
  [ ("Cell01_100SOH_25degC_50SOC_1000.xls",
     mkSheet 3 [ [Number 1000; Number 0.5; Number (-0.25)] ]);
    ("Cell01_100SOH_25degC_50SOC_1001.xls",
     mkSheet 3 [ [Number 10; Number 0.75; Number (-0.5)] ]) ]%float.

(** A sheet made of a header line only. *)
Definition sheet_header_only : Sheet :=
  mkSheet 3 [ [Text "Freq"; Text "Re"; Text "Im"] ].

(** A sheet whose only row holds an infinite frequency. *)
Definition sheet_with_infinity : Sheet :=
  mkSheet 3 [ [Number infinity; Number 0.5; Number (-0.25)] ]%float.

(* ------------------------------------------------------------------ *)
(** * Loading a directory *)

(** What [load_and_process_dib_eis] raises: its own [FileNotFoundError],
    or an exception of the functions it calls. *)
Inductive dir_exn : Type :=
| FileNotFoundError (msg : string)
| Raised (e : exn).

(** A file of the directory: the name of its path and the sheet
    [pd.read_excel] reads from it. *)
Definition file : Type := (string * Sheet)%type.

Fixpoint insert_file (f : file) (l : list file) : list file :=
  match l with
  | [] => [f]
  | g :: r =>
      if String.leb (fst f) (fst g) then f :: l else g :: insert_file f r
  end.

(** [sorted(paths)] for paths of one directory: they compare as their
    names do (character by character, as POSIX paths), and paths that
    compare equal keep their order. *)
Fixpoint sorted_files (l : list file) : list file :=
  match l with
  | [] => []
  | f :: r => insert_file f (sorted_files r)
  end.

(** [[parse_eis_filename(p) for p in eis_files]]; the [filepath] entry of
    each record is kept as the sheet it leads to. *)
Fixpoint parse_all (files : list file) : result (list (TestIdentity * Sheet)) :=
  match files with
  | [] => ret []
  | (name, sheet) :: rest =>
      record <- parse_eis_filename name ;;
      records <- parse_all rest ;;
      ret ((record, sheet) :: records)
  end.

Section Directory.
Context {L : Library}.

(** [load_and_process_dib_eis], from what
    [eis_xls_dir.glob("*.xls")] yields. *)
Definition load_and_process_dib_eis (glob_xls : list file)
  : dir_exn + list LongRow :=
  let eis_files := sorted_files glob_xls in
  match eis_files with
  | [] => inl (FileNotFoundError "No .xls files found")
  | _ =>
      match (eis_index <- parse_all eis_files ;; load_all_eis eis_index) with
      | inl e => inl (Raised e)
      | inr eis_long_df => inr eis_long_df
      end
  end.

End Directory.

(* ------------------------------------------------------------------ *)
(** * Vocabulary of the further properties *)

(** [n] zeros *)
Fixpoint zeros (n : nat) : string :=
  match n with
  | O => EmptyString
  | S k => String "0" (zeros k)
  end.

(** An integer written with [n] zeros in front of its digits, after the
    sign. *)
Definition padded (n : nat) (z : Z) : string :=
  match Z.to_int z with
  | Pos d => zeros n ++ NilEmpty.string_of_uint d
  | Neg d => String "-" (zeros n ++ NilEmpty.string_of_uint d)
  end.

(** The template of the file names with each number padded. *)
Definition padded_name_of (pad : list nat) (id : TestIdentity)
  (ext : string) : string :=
  "Cell" ++ padded (nth 0 pad O) (cell_id id) ++ "_"
  ++ padded (nth 1 pad O) (soh_pct id) ++ "SOH_"
  ++ padded (nth 2 pad O) (temp_c id) ++ "degC_"
  ++ padded (nth 3 pad O) (soc_pct id) ++ "SOC_"
  ++ padded (nth 4 pad O) (capacity_code id) ++ "." ++ ext.

(** Two points whose frequencies are numbers and differ. *)
Definition apart (p q : SpectrumPoint) : Prop :=
  ((frequency_hz p <? frequency_hz q) || (frequency_hz q <? frequency_hz p))%float
  = true.

(** Strictly ascending frequency. *)
Definition freq_lt (p q : SpectrumPoint) : Prop :=
  (frequency_hz p <? frequency_hz q)%float = true.

(** No two points of the group share a frequency, and every frequency is
    a number when there is more than one point. *)
Definition distinct_frequencies (group : list SpectrumPoint) : Prop :=
  NoDup group /\ forall p q, In p group -> In q group -> p <> q -> apart p q.

(** No two rows of the same test share a frequency. *)
Definition one_row_per_frequency (df : list LongRow) : Prop :=
  ForallOrdPairs
    (fun r1 r2 => key_of r1 = key_of r2 -> apart (point r1) (point r2)) df.

(** The rows of the table with a given key, in table order. *)
Definition rows_of (k : group_key) (df : list LongRow) : list LongRow :=
  filter (fun r => key_eqb (key_of r) k) df.

(** Files in strictly ascending order of their names, and in ascending
    order. *)
Definition file_lt (f g : file) : Prop := String.ltb (fst f) (fst g) = true.
Definition file_le (f g : file) : Prop := String.leb (fst f) (fst g) = true.

(** A file whose name decodes and whose sheet has its three columns. *)
Definition loadable (f : file) : Prop :=
  (exists id, parse_eis_filename (fst f) = inr id)
  /\ (3 <= ncols (snd f))%nat.

(** An index entry made from a file. *)
Definition entry_of (f : file) (e : TestIdentity * Sheet) : Prop :=
  parse_eis_filename (fst f) = inr (fst e) /\ snd e = snd f.

(** The rows an index entry contributes to the long-format table. *)
Definition tagged_rows {L : Library} (entry : TestIdentity * Sheet)
  : list LongRow :=
  map (mkLongRow (fst entry)) (valid_rows (snd entry)).



(* ================================================================== *)
(** * Properties *)

(* ------------------------------------------------------------------ *)
(** ** Order and subtraction of binary64 numbers *)

Module FloatFacts.

Ltac sf_destruct :=
  repeat match goal with
         | x : spec_float |- _ => destruct x as [[|]|[|]| |[|] ? ?]
         end.

Ltac cmp_cases :=
  repeat match goal with
         | |- context [Z.compare ?a ?b] => destruct (Z.compare_spec a b)
         | H : context [Z.compare ?a ?b] |- _ => destruct (Z.compare_spec a b)
         | |- context [Pos.compare_cont Eq ?a ?b] =>
             change (Pos.compare_cont Eq a b) with (Pos.compare a b);
             destruct (Pos.compare_spec a b)
         | H : context [Pos.compare_cont Eq ?a ?b] |- _ =>
             change (Pos.compare_cont Eq a b) with (Pos.compare a b) in H;
             destruct (Pos.compare_spec a b)
         end.

Lemma SFltb_negb_leb x y :
  x <> S754_nan -> y <> S754_nan -> SFltb x y = negb (SFleb y x).
Proof.
  intros Hx Hy. unfold SFltb, SFleb.
  sf_destruct; try congruence; simpl; try reflexivity;
    cmp_cases; simpl; try reflexivity; try lia; subst; try lia.
Qed.

Lemma SFleb_trans x y z :
  SFleb x y = true -> SFleb y z = true -> SFleb x z = true.
Proof.
  unfold SFleb. sf_destruct; simpl; try discriminate; try reflexivity;
    cmp_cases; simpl; try discriminate; try reflexivity; intros; subst;
    try lia.
Qed.

Lemma SFleb_refl x : x <> S754_nan -> SFleb x x = true.
Proof.
  intros Hx. unfold SFleb. sf_destruct; try congruence; simpl;
    try reflexivity; rewrite Z.compare_refl;
    change (Pos.compare_cont Eq m m) with (Pos.compare m m);
    rewrite Pos.compare_refl; reflexivity.
Qed.

Lemma SFleb_not_nan x y :
  SFleb x y = true -> x <> S754_nan /\ y <> S754_nan.
Proof.
  unfold SFleb. sf_destruct; simpl; try discriminate; split; discriminate.
Qed.

Lemma shr_1_nonneg mrs : 0 <= shr_m mrs -> 0 <= shr_m (shr_1 mrs).
Proof.
  destruct mrs as [m r s]; destruct m as [|[p|p|]|p]; simpl; lia.
Qed.

Lemma iter_shr_1_nonneg p :
  forall mrs, 0 <= shr_m mrs -> 0 <= shr_m (iter_pos shr_1 p mrs).
Proof.
  induction p; intros mrs H; simpl; auto using shr_1_nonneg.
Qed.

Lemma shr_fexp_nonneg pr em m e l :
  0 <= m -> 0 <= shr_m (fst (shr_fexp pr em m e l)).
Proof.
  intros H. unfold shr_fexp, shr.
  assert (H0 : 0 <= shr_m (shr_record_of_loc m l))
    by (destruct l as [|[]]; exact H).
  destruct (fexp pr em (Zdigits2 m + e) - e); simpl;
    auto using iter_shr_1_nonneg.
Qed.

Lemma round_nearest_even_nonneg m l : 0 <= m -> 0 <= round_nearest_even m l.
Proof.
  intros H. destruct l as [|[]]; simpl; try lia. destruct (Z.even m); lia.
Qed.

Lemma binary_round_aux_not_nan pr em s m e l :
  0 <= m -> binary_round_aux pr em s m e l <> S754_nan.
Proof.
  intros H. unfold binary_round_aux.
  pose proof (shr_fexp_nonneg pr em m e l H) as H1.
  destruct (shr_fexp pr em m e l) as [mrs' e']. simpl in H1.
  pose proof (shr_fexp_nonneg pr em _ e' loc_Exact
                (round_nearest_even_nonneg _ (loc_of_shr_record mrs') H1))
    as H2.
  destruct (shr_fexp pr em
              (round_nearest_even (shr_m mrs') (loc_of_shr_record mrs'))
              e' loc_Exact) as [mrs'' e'']. simpl in H2.
  destruct (shr_m mrs''); try discriminate; try lia.
  destruct (e'' <=? em - pr); discriminate.
Qed.

Lemma binary_normalize_not_nan pr em m e sz :
  binary_normalize pr em m e sz <> S754_nan.
Proof.
  unfold binary_normalize, binary_round. destruct m; try discriminate.
  - destruct (shl_align p e _). apply binary_round_aux_not_nan. lia.
  - destruct (shl_align p e _). apply binary_round_aux_not_nan. lia.
Qed.

Lemma SFsub_not_nan pr em x y :
  x <> S754_nan -> y <> S754_nan ->
  (forall s, y <> S754_infinity s) ->
  SFsub pr em x y <> S754_nan.
Proof.
  intros Hx Hy Hi.
  destruct x as [[|]|[|]| |sx mx ex], y as [[|]|sy| |sy my ey];
    simpl; try congruence; try (exfalso; eapply Hi; reflexivity);
    try apply binary_normalize_not_nan.
Qed.

(** *** The same facts on primitive floats *)

Lemma is_nan_false x : is_nan x = false <-> Prim2SF x <> S754_nan.
Proof.
  unfold is_nan. rewrite eqb_spec. unfold SFeqb.
  destruct (Prim2SF x) as [[|]|[|]| |[|] m e]; simpl;
    try (split; congruence).
  all: rewrite Z.compare_refl;
    change (Pos.compare_cont Eq m m) with (Pos.compare m m);
    rewrite Pos.compare_refl; simpl; split; congruence.
Qed.

Lemma leb_not_nan x y :
  (x <=? y)%float = true -> is_nan x = false /\ is_nan y = false.
Proof.
  rewrite leb_spec, !is_nan_false. apply SFleb_not_nan.
Qed.

Lemma leb_refl x : is_nan x = false -> (x <=? x)%float = true.
Proof.
  rewrite leb_spec, is_nan_false. apply SFleb_refl.
Qed.

Lemma leb_trans x y z :
  (x <=? y)%float = true -> (y <=? z)%float = true -> (x <=? z)%float = true.
Proof.
  rewrite !leb_spec. apply SFleb_trans.
Qed.

Lemma ltb_negb_leb x y :
  is_nan x = false -> is_nan y = false ->
  (x <? y)%float = negb (y <=? x)%float.
Proof.
  rewrite ltb_spec, leb_spec, !is_nan_false. apply SFltb_negb_leb.
Qed.

Lemma ltb_not_nan x y :
  (x <? y)%float = true -> is_nan x = false /\ is_nan y = false.
Proof.
  rewrite ltb_spec, !is_nan_false. unfold SFltb.
  destruct (Prim2SF x) as [[|]|[|]| |[|] ? ?],
    (Prim2SF y) as [[|]|[|]| |[|] ? ?]; simpl; try discriminate;
    split; discriminate.
Qed.

Lemma ltb_leb x y : (x <? y)%float = true -> (x <=? y)%float = true.
Proof.
  rewrite ltb_spec, leb_spec. unfold SFltb, SFleb.
  destruct (SFcompare (Prim2SF x) (Prim2SF y)) as [[| |]|];
    try discriminate; reflexivity.
Qed.

Lemma leb_total x y :
  is_nan x = false -> is_nan y = false ->
  (x <=? y)%float = false -> (y <? x)%float = true.
Proof.
  intros Hx Hy H. rewrite ltb_negb_leb by assumption. now rewrite H.
Qed.

Lemma ltb_leb_trans x y z :
  (x <? y)%float = true -> (y <=? z)%float = true -> (x <? z)%float = true.
Proof.
  intros Hxy Hyz.
  destruct (ltb_not_nan _ _ Hxy) as [Hx Hy].
  destruct (leb_not_nan _ _ Hyz) as [_ Hz].
  rewrite ltb_negb_leb by assumption.
  destruct (z <=? x)%float eqn:Hzx; [|reflexivity].
  pose proof (leb_trans _ _ _ Hyz Hzx) as Hyx.
  rewrite ltb_negb_leb in Hxy by assumption. rewrite Hyx in Hxy.
  discriminate.
Qed.

Lemma is_finite_not_infinity x :
  is_finite x = true ->
  Prim2SF x <> S754_nan /\ forall s, Prim2SF x <> S754_infinity s.
Proof.
  unfold is_finite. rewrite negb_true_iff, orb_false_iff.
  intros [Hnan Hinf]. split; [now apply is_nan_false|].
  intros s Hs. unfold is_infinity in Hinf.
  rewrite eqb_spec, abs_spec, Hs in Hinf. discriminate.
Qed.

(** A number minus a finite number, in absolute value, is a number. *)
Lemma abs_sub_not_nan f t :
  is_nan f = false -> is_finite t = true -> is_nan (abs (f - t)) = false.
Proof.
  intros Hf Ht. apply is_finite_not_infinity in Ht. destruct Ht as [Hn Hi].
  apply is_nan_false in Hf. apply is_nan_false.
  rewrite abs_spec, sub_spec.
  pose proof (SFsub_not_nan prec emax _ _ Hf Hn Hi) as H.
  unfold SF64sub. destruct (SFsub prec emax (Prim2SF f) (Prim2SF t));
    simpl; congruence.
Qed.

End FloatFacts.

(* ------------------------------------------------------------------ *)
(** ** The instance that runs the model

    The insertion sort returns the rows it is given in ascending order of
    frequency, so it can stand for [sort_values]. *)

Section InsertionSort.
Import FloatFacts.

Lemma freq_le_total a b : freq_le a b = false -> freq_le b a = true.
Proof.
  unfold freq_le. destruct (is_nan b) eqn:Hb; [discriminate|].
  destruct (is_nan a) eqn:Ha; [reflexivity|].
  intros H. apply ltb_leb. now apply leb_total.
Qed.

Lemma insert_point_perm p l : Permutation (insert_point p l) (p :: l).
Proof.
  induction l as [|q r IH]; cbn [insert_point]; [reflexivity|].
  destruct (freq_le (frequency_hz p) (frequency_hz q)); [reflexivity|].
  rewrite IH. apply perm_swap.
Qed.

Lemma insertion_sort_perm group : Permutation (insertion_sort group) group.
Proof.
  induction group as [|p r IH]; cbn [insertion_sort]; [reflexivity|].
  rewrite insert_point_perm. now constructor.
Qed.

Lemma insert_point_sorted p l :
  Sorted freq_order l -> Sorted freq_order (insert_point p l).
Proof.
  induction 1 as [|q r Hs IH Hhd]; cbn [insert_point].
  - repeat constructor.
  - destruct (freq_le (frequency_hz p) (frequency_hz q)) eqn:Hle.
    + constructor; [now constructor|now constructor].
    + constructor; [exact IH|].
      destruct r as [|q' r']; cbn [insert_point].
      * constructor. now apply freq_le_total.
      * destruct (freq_le (frequency_hz p) (frequency_hz q')).
        -- constructor. now apply freq_le_total.
        -- inversion Hhd; subst. now constructor.
Qed.

Lemma insertion_sort_sorted group : Sorted freq_order (insertion_sort group).
Proof.
  induction group as [|p r IH]; cbn [insertion_sort]; [constructor|].
  now apply insert_point_sorted.
Qed.

End InsertionSort.

(** The library of the sample runs: the parts defined above, with the
    insertion sort for [sort_values]. *)
#[local] Instance plain_library : Library := {
  floatify := floatify_plain;
  sort_values := insertion_sort;
  sort_values_perm := insertion_sort_perm;
  sort_values_sorted := insertion_sort_sorted;
  np_abs := abs_plain;
  np_angle := angle_plain;
  np_mean := mean_plain;
  np_std := std_plain;
  np_min := reduce_plain ltb;
  np_max := reduce_plain (fun y m => ltb m y)
}.

Lemma insertion_sort_rev_perm group :
  Permutation (insertion_sort (List.rev group)) group.
Proof.
  rewrite insertion_sort_perm. symmetry. apply Permutation_rev.
Qed.

(** The same library with another sort, which leaves rows of equal
    frequency in the reverse of their order of arrival. *)
Definition reversing_library : Library := {|
  floatify := floatify_plain;
  sort_values group := insertion_sort (List.rev group);
  sort_values_perm := insertion_sort_rev_perm;
  sort_values_sorted group := insertion_sort_sorted (List.rev group);
  np_abs := abs_plain;
  np_angle := angle_plain;
  np_mean := mean_plain;
  np_std := std_plain;
  np_min := reduce_plain ltb;
  np_max := reduce_plain (fun y m => ltb m y)
|}.

(* ------------------------------------------------------------------ *)
(** ** Spectrum loader *)

Section LoaderFacts.
Context {L : Library}.

Lemma clean_frame_rows (df : list (Row3 cell)) :
  astype_float (dropna columns3 (coerce_columns df))
  = map coerce_row (filter row_numeric df).
Proof.
  unfold astype_float, dropna, coerce_columns.
  induction df as [|[a b c] df IH]; [reflexivity|].
  cbn [map filter]. rewrite IH.
  unfold row_numeric, numeric, coerce_row, columns3.
  cbn [existsb get frequency_hz z_real_ohm z_imag_ohm].
  destruct (is_nan (to_numeric a)), (is_nan (to_numeric b)),
    (is_nan (to_numeric c)); reflexivity.
Qed.

Lemma load_single_eis_rows (s : Sheet) :
  (3 <= ncols s)%nat -> load_single_eis s = inr (valid_rows s).
Proof.
  intros H. unfold load_single_eis, first_three_columns.
  destruct (Nat.ltb_spec (ncols s) 3) as [Hlt|_]; [lia|].
  cbn [bind ret]. unfold ret. f_equal. apply clean_frame_rows.
Qed.

Lemma load_single_eis_narrow (s : Sheet) :
  (ncols s < 3)%nat -> raises (load_single_eis s).
Proof.
  intros H. unfold load_single_eis, first_three_columns.
  destruct (Nat.ltb_spec (ncols s) 3) as [_|Hge]; [|lia].
  eexists. reflexivity.
Qed.

Lemma valid_rows_origin (s : Sheet) (p : SpectrumPoint) :
  In p (valid_rows s) ->
  exists r, In r (body s) /\ row_numeric (first3 r) = true
            /\ p = coerce_row (first3 r).
Proof.
  unfold valid_rows. rewrite in_map_iff. intros [r3 [<- Hin]].
  apply filter_In in Hin. destruct Hin as [Hin Hnum].
  apply in_map_iff in Hin. destruct Hin as [r [<- Hr]]. eauto.
Qed.

(** What the loader returns can be given to the feature extractor: no
    frequency of a loaded spectrum is NaN. *)
Lemma loaded_frequencies_are_numbers (s : Sheet)
  (spectrum : list SpectrumPoint) :
  load_single_eis s = inr spectrum ->
  Forall (fun p => is_nan (frequency_hz p) = false) spectrum.
Proof.
  intros Hload. destruct (Nat.lt_ge_cases (ncols s) 3) as [Hlt|Hge].
  - destruct (load_single_eis_narrow s Hlt) as [e He].
    rewrite He in Hload. discriminate.
  - rewrite load_single_eis_rows in Hload by exact Hge.
    injection Hload as <-. apply Forall_forall. intros p Hp.
    apply valid_rows_origin in Hp. destruct Hp as [r [_ [Hnum ->]]].
    unfold row_numeric, numeric in Hnum.
    apply andb_prop in Hnum. destruct Hnum as [Hnum _].
    apply andb_prop in Hnum. destruct Hnum as [H1 _].
    now apply negb_true_iff in H1.
Qed.

(** C4: for a sheet with its three columns, the spectrum returned is made
    of exactly the rows whose three cells all coerce to a number, in
    their order and with the coerced values; every other row is dropped
    whole and leaves nothing behind.  In particular three raw rows of
    which only the middle one is not numeric give a spectrum of two rows. *)
Theorem load_single_eis_keeps_numeric_rows (s : Sheet) :
  (3 <= ncols s)%nat ->
  exists spectrum,
    load_single_eis s = inr spectrum
    /\ spectrum = map coerce_row (filter row_numeric (map first3 (body s)))
    /\ (forall p, In p spectrum <->
          exists r, In r (body s) /\ row_numeric (first3 r) = true
                    /\ p = coerce_row (first3 r))
    /\ List.length spectrum
       = List.length (filter (fun r => row_numeric (first3 r)) (body s))
    /\ (forall r1 r2 r3,
          body s = [r1; r2; r3] ->
          row_numeric (first3 r1) = true ->
          row_numeric (first3 r2) = false ->
          row_numeric (first3 r3) = true ->
          spectrum = [coerce_row (first3 r1); coerce_row (first3 r3)]).
Proof.
  intros H. exists (valid_rows s). split; [now apply load_single_eis_rows|].
  split; [reflexivity|]. split; [|split].
  - intros p. split; [apply valid_rows_origin|].
    intros [r [Hr [Hnum ->]]]. unfold valid_rows.
    apply in_map, filter_In. split; [now apply in_map|exact Hnum].
  - unfold valid_rows. rewrite length_map.
    induction (body s) as [|r rs IH]; [reflexivity|].
    cbn [map filter]. destruct (row_numeric (first3 r)); cbn [List.length];
      now rewrite IH.
  - intros r1 r2 r3 Hb H1 H2 H3. unfold valid_rows. rewrite Hb.
    cbn [map filter]. rewrite H1, H2, H3. reflexivity.
Qed.

(** C1, as the code has it: a sheet with its three columns in which no
    row survives the coercion is loaded without an error, and the
    spectrum returned is empty; the loader raises exactly when the sheet
    has fewer than three columns. *)
Theorem load_single_eis_no_valid_rows (s : Sheet) :
  (3 <= ncols s)%nat ->
  (forall r, In r (body s) -> row_numeric (first3 r) = false) ->
  load_single_eis s = inr []
  /\ ~ raises (load_single_eis s)
  /\ (forall s', raises (load_single_eis s') <-> (ncols s' < 3)%nat).
Proof.
  intros H Hall.
  assert (Hempty : load_single_eis s = inr []).
  { rewrite load_single_eis_rows by exact H. unfold valid_rows.
    induction (body s) as [|r rs IH]; [reflexivity|].
    cbn [map filter]. rewrite (Hall r (or_introl eq_refl)).
    apply IH. intros q Hq. apply Hall. now right. }
  split; [exact Hempty|]. split.
  - intros [e He]. rewrite Hempty in He. discriminate.
  - intros s'. split.
    + intros [e He]. destruct (Nat.lt_ge_cases (ncols s') 3) as [Hlt|Hge];
        [exact Hlt|].
      rewrite load_single_eis_rows in He by exact Hge. discriminate.
    + apply load_single_eis_narrow.
Qed.

(** C9, as the code has it: every row of a loaded spectrum comes from a
    row of the sheet, carries the coerced values of its three cells
    unchanged, and none of the three is NaN. *)
Theorem load_single_eis_rows_not_nan (s : Sheet)
  (spectrum : list SpectrumPoint) (p : SpectrumPoint) :
  load_single_eis s = inr spectrum ->
  In p spectrum ->
  is_nan (frequency_hz p) = false
  /\ is_nan (z_real_ohm p) = false
  /\ is_nan (z_imag_ohm p) = false
  /\ exists r, In r (body s)
               /\ frequency_hz p = to_numeric (nth 0 r Missing)
               /\ z_real_ohm p = to_numeric (nth 1 r Missing)
               /\ z_imag_ohm p = to_numeric (nth 2 r Missing).
Proof.
  intros Hload Hin.
  destruct (Nat.lt_ge_cases (ncols s) 3) as [Hlt|Hge].
  - destruct (load_single_eis_narrow s Hlt) as [e He].
    rewrite He in Hload. discriminate.
  - rewrite load_single_eis_rows in Hload by exact Hge.
    injection Hload as <-.
    apply valid_rows_origin in Hin. destruct Hin as [r [Hr [Hnum ->]]].
    unfold row_numeric, numeric in Hnum.
    apply andb_prop in Hnum. destruct Hnum as [Hnum H3].
    apply andb_prop in Hnum. destruct Hnum as [H1 H2].
    apply negb_true_iff in H1, H2, H3.
    cbn [coerce_row frequency_hz z_real_ohm z_imag_ohm first3] in *.
    repeat split; try assumption. exists r. auto.
Qed.

End LoaderFacts.

Lemma load_single_eis_keeps_numeric_rows_witness :
  (3 <= ncols sheet_with_inner_header)%nat
  /\ exists spectrum,
       load_single_eis (L := plain_library) sheet_with_inner_header
       = inr spectrum
       /\ List.length spectrum = 2%nat.
Proof.
  split; [cbn; lia|].
  destruct (load_single_eis_keeps_numeric_rows (L := plain_library)
              sheet_with_inner_header) as [spectrum [Hload [Heq _]]];
    [cbn; lia|].
  exists spectrum. split; [exact Hload|]. rewrite Heq. reflexivity.
Defined.

(** A sheet whose only row is a header line has no valid row, and it is
    loaded as an empty spectrum, not refused. *)
Lemma load_single_eis_accepts_header_only :
  valid_rows (L := plain_library) sheet_header_only = []
  /\ load_single_eis (L := plain_library) sheet_header_only = inr []
  /\ ~ raises (load_single_eis (L := plain_library) sheet_header_only).
Proof.
  split; [reflexivity|]. split; [reflexivity|].
  intros [e He]. discriminate He.
Qed.

Lemma load_single_eis_no_valid_rows_witness :
  (3 <= ncols sheet_header_only)%nat
  /\ (forall r, In r (body sheet_header_only) ->
                row_numeric (L := plain_library) (first3 r) = false)
  /\ load_single_eis (L := plain_library) sheet_header_only = inr [].
Proof.
  assert (H3 : (3 <= ncols sheet_header_only)%nat) by (cbn; lia).
  assert (Hall : forall r, In r (body sheet_header_only) ->
                   row_numeric (L := plain_library) (first3 r) = false).
  { intros r [<-|[]]. reflexivity. }
  split; [exact H3|]. split; [exact Hall|].
  exact (proj1 (load_single_eis_no_valid_rows (L := plain_library)
                  sheet_header_only H3 Hall)).
Defined.

(** A row with an infinite frequency is kept: the spectrum returned holds
    a value that is not finite. *)
Lemma load_single_eis_keeps_infinity :
  exists p,
    load_single_eis (L := plain_library) sheet_with_infinity = inr [p]
    /\ is_finite (frequency_hz p) = false.
Proof.
  eexists. split; reflexivity.
Qed.

Lemma load_single_eis_rows_not_nan_witness :
  load_single_eis (L := plain_library) sheet_with_infinity
  = inr [mkRow3 infinity 0.5 (-0.25)]%float
  /\ In (mkRow3 infinity 0.5 (-0.25))%float [mkRow3 infinity 0.5 (-0.25)]%float
  /\ is_nan (frequency_hz (mkRow3 infinity 0.5 (-0.25))%float) = false.
Proof.
  assert (Hload : load_single_eis (L := plain_library) sheet_with_infinity
                  = inr [mkRow3 infinity 0.5 (-0.25)]%float) by reflexivity.
  assert (Hin : In (mkRow3 infinity 0.5 (-0.25))%float
                  [mkRow3 infinity 0.5 (-0.25)]%float) by (left; reflexivity).
  split; [exact Hload|]. split; [exact Hin|].
  exact (proj1 (load_single_eis_rows_not_nan (L := plain_library)
                  sheet_with_infinity _ _ Hload Hin)).
Defined.

(* ------------------------------------------------------------------ *)
(** ** numpy index searches *)

Section ArgSearch.
Import FloatFacts.

Lemma argmin_go_bound l : forall i mp mi,
  argmin_go l i mp mi = mi
  \/ (i <= argmin_go l i mp mi < i + List.length l)%nat.
Proof.
  induction l as [|x r IH]; intros i mp mi; cbn [argmin_go List.length].
  - now left.
  - destruct (negb (mp <=? x)%float).
    + destruct (is_nan x); [right; lia|].
      destruct (IH (S i) x i) as [->|H]; right; lia.
    + destruct (IH (S i) mp mi) as [->|H]; [now left|right; lia].
Qed.

Lemma argmax_go_bound l : forall i mp mi,
  argmax_go l i mp mi = mi
  \/ (i <= argmax_go l i mp mi < i + List.length l)%nat.
Proof.
  induction l as [|x r IH]; intros i mp mi; cbn [argmax_go List.length].
  - now left.
  - destruct (negb (x <=? mp)%float).
    + destruct (is_nan x); [right; lia|].
      destruct (IH (S i) x i) as [->|H]; right; lia.
    + destruct (IH (S i) mp mi) as [->|H]; [now left|right; lia].
Qed.

Lemma argmin_in_range a :
  a <> [] -> exists i, argmin a = inr i /\ (i < List.length a)%nat.
Proof.
  destruct a as [|x r]; [congruence|]. intros _.
  eexists. split; [reflexivity|]. cbn [List.length].
  destruct (is_nan x); [lia|].
  destruct (argmin_go_bound r 1 x 0) as [->|H]; lia.
Qed.

Lemma argmax_in_range a :
  a <> [] -> exists i, argmax a = inr i /\ (i < List.length a)%nat.
Proof.
  destruct a as [|x r]; [congruence|]. intros _.
  eexists. split; [reflexivity|]. cbn [List.length].
  destruct (is_nan x); [lia|].
  destruct (argmax_go_bound r 1 x 0) as [->|H]; lia.
Qed.

(** What the scan of [np.argmin] returns on numbers: either the running
    minimum stays, and nothing scanned is below it, or the answer is the
    first position of the least scanned value, which is below the running
    minimum. *)
Lemma argmin_go_first_min l : forall i mp mi,
  is_nan mp = false ->
  Forall (fun x => is_nan x = false) l ->
  (argmin_go l i mp mi = mi /\ Forall (fun x => (mp <=? x)%float = true) l)
  \/ exists k m,
       argmin_go l i mp mi = (i + k)%nat
       /\ nth_error l k = Some m
       /\ (m <? mp)%float = true
       /\ Forall (fun x => (m <=? x)%float = true) l
       /\ forall j x, (j < k)%nat -> nth_error l j = Some x ->
                      (m <? x)%float = true.
Proof.
  induction l as [|x r IH]; intros i mp mi Hmp Hl; cbn [argmin_go].
  - left. split; [reflexivity|constructor].
  - inversion Hl as [|? ? Hx Hr]; subst.
    destruct (mp <=? x)%float eqn:Hle; cbn [negb].
    + destruct (IH (S i) mp mi Hmp Hr) as [[-> Hall]|[k [m [-> [Hk [Hlt [Hall Hfirst]]]]]]].
      * left. split; [reflexivity|]. constructor; assumption.
      * right. exists (S k), m. repeat split.
        -- lia.
        -- exact Hk.
        -- exact Hlt.
        -- constructor; [|exact Hall].
           apply ltb_leb. eapply ltb_leb_trans; eassumption.
        -- intros [|j] y Hj Hy; cbn [nth_error] in Hy.
           ++ injection Hy as <-. eapply ltb_leb_trans; eassumption.
           ++ eapply Hfirst; [|exact Hy]. lia.
    + rewrite Hx. pose proof (leb_total _ _ Hmp Hx Hle) as Hxmp.
      destruct (IH (S i) x i Hx Hr) as [[-> Hall]|[k [m [-> [Hk [Hlt [Hall Hfirst]]]]]]].
      * right. exists O, x. repeat split.
        -- lia.
        -- exact Hxmp.
        -- constructor; [now apply leb_refl|exact Hall].
        -- intros j y Hj. lia.
      * right. exists (S k), m. repeat split.
        -- lia.
        -- exact Hk.
        -- eapply ltb_leb_trans; [exact Hlt|]. now apply ltb_leb.
        -- constructor; [now apply ltb_leb|exact Hall].
        -- intros [|j] y Hj Hy; cbn [nth_error] in Hy.
           ++ injection Hy as <-. exact Hlt.
           ++ eapply Hfirst; [|exact Hy]. lia.
Qed.

(** [np.argmin] on an array of numbers: the first position of the least
    value. *)
Lemma argmin_first_min a :
  a <> [] ->
  Forall (fun x => is_nan x = false) a ->
  exists i m,
    argmin a = inr i
    /\ nth_error a i = Some m
    /\ Forall (fun x => (m <=? x)%float = true) a
    /\ forall j x, (j < i)%nat -> nth_error a j = Some x ->
                   (m <? x)%float = true.
Proof.
  destruct a as [|x r]; [congruence|]. intros _ Ha.
  inversion Ha as [|? ? Hx Hr]; subst.
  cbn [argmin]. rewrite Hx.
  destruct (argmin_go_first_min r 1 x 0 Hx Hr)
    as [[-> Hall]|[k [m [-> [Hk [Hlt [Hall Hfirst]]]]]]].
  - exists O, x. repeat split.
    + constructor; [now apply leb_refl|exact Hall].
    + intros j y Hj. lia.
  - exists (S k), m. repeat split.
    + exact Hk.
    + constructor; [now apply ltb_leb|exact Hall].
    + intros [|j] y Hj Hy; cbn [nth_error] in Hy.
      * injection Hy as <-. exact Hlt.
      * eapply Hfirst; [|exact Hy]. lia.
Qed.

End ArgSearch.

(* ------------------------------------------------------------------ *)
(** ** Sorting by frequency *)

Section SortFacts.
Context {L : Library}.
Import FloatFacts.

Lemma sort_values_nonempty group : group <> [] -> sort_values group <> [].
Proof.
  intros H Hs. apply H. apply Permutation_nil.
  rewrite <- Hs. apply sort_values_perm.
Qed.

Lemma sort_values_nil : sort_values [] = [].
Proof. apply Permutation_nil, Permutation_sym, sort_values_perm. Qed.

Lemma sort_values_single (p : SpectrumPoint) : sort_values [p] = [p].
Proof.
  apply Permutation_length_1_inv, Permutation_sym, sort_values_perm.
Qed.

Lemma freq_order_trans (p q r : SpectrumPoint) :
  freq_order p q -> freq_order q r -> freq_order p r.
Proof.
  unfold freq_order, freq_le.
  destruct (is_nan (frequency_hz r)); [reflexivity|].
  destruct (is_nan (frequency_hz q)); [discriminate|].
  destruct (is_nan (frequency_hz p)); [discriminate|].
  apply leb_trans.
Qed.

(** Every row of the sorted group comes before the rows after it. *)
Lemma sort_values_strongly group :
  StronglySorted freq_order (sort_values group).
Proof.
  apply Sorted_StronglySorted; [|apply sort_values_sorted].
  intros p q r. apply freq_order_trans.
Qed.

Lemma StronglySorted_nth_error {A} (R : A -> A -> Prop) (l : list A) :
  StronglySorted R l ->
  forall j k x y, (j < k)%nat ->
    nth_error l j = Some x -> nth_error l k = Some y -> R x y.
Proof.
  induction 1 as [|a t Ht IH Ha]; intros j k x y Hjk Hx Hy.
  - destruct j; discriminate Hx.
  - destruct k as [|k]; [lia|]. cbn [nth_error] in Hy.
    destruct j as [|j]; cbn [nth_error] in Hx.
    + injection Hx as <-. rewrite Forall_forall in Ha. apply Ha.
      eapply nth_error_In. exact Hy.
    + apply (IH j k); [lia|assumption|assumption].
Qed.

(** On a group whose frequencies are numbers, the frequencies of the
    sorted group ascend. *)
Lemma sort_values_ascending group (j k : nat) (q q' : SpectrumPoint) :
  Forall (fun p => is_nan (frequency_hz p) = false) group ->
  (j <= k)%nat ->
  nth_error (sort_values group) j = Some q ->
  nth_error (sort_values group) k = Some q' ->
  (frequency_hz q <=? frequency_hz q')%float = true.
Proof.
  intros Hnum Hjk Hq Hq'.
  assert (Hin : forall x i, nth_error (sort_values group) i = Some x ->
                            is_nan (frequency_hz x) = false).
  { intros x i Hx. rewrite Forall_forall in Hnum. apply Hnum.
    eapply Permutation_in; [apply sort_values_perm|].
    eapply nth_error_In. exact Hx. }
  destruct (Nat.eq_dec j k) as [->|Hne].
  - rewrite Hq in Hq'. injection Hq' as <-. apply leb_refl.
    eapply Hin. exact Hq.
  - assert (Hlt : (j < k)%nat) by lia.
    pose proof (StronglySorted_nth_error _ _ (sort_values_strongly group)
                  j k q q' Hlt Hq Hq') as H.
    unfold freq_order, freq_le in H.
    rewrite (Hin _ _ Hq), (Hin _ _ Hq') in H. exact H.
Qed.

End SortFacts.

(* ------------------------------------------------------------------ *)
(** ** Dictionaries *)

Section DictFacts.
Context {V : Type}.

Lemma getitem_setitem (k k' : string) (v : V) (d : dict V) :
  getitem k (setitem k' v d)
  = if String.eqb k' k then Some v else getitem k d.
Proof.
  induction d as [|[k0 v0] r IH]; cbn [setitem getitem].
  - reflexivity.
  - destruct (String.eqb_spec k0 k') as [->|Hne]; cbn [getitem].
    + destruct (String.eqb k' k); reflexivity.
    + rewrite IH. destruct (String.eqb_spec k0 k) as [->|Hne'];
        [|reflexivity].
      destruct (String.eqb_spec k' k) as [->|_]; [congruence|reflexivity].
Qed.

Lemma keys_setitem (k : string) (v : V) (d : dict V) :
  keys (setitem k v d) = add_key k (keys d).
Proof.
  unfold add_key, keys.
  induction d as [|[k0 v0] r IH]; cbn [setitem map fst existsb app].
  - reflexivity.
  - rewrite (String.eqb_sym k k0).
    destruct (String.eqb k0 k); cbn [map fst orb]; [reflexivity|].
    rewrite IH. destruct (existsb (String.eqb k) (map fst r)); reflexivity.
Qed.

Lemma getitem_update_other (k : string) (d e : dict V) :
  ~ In k (keys e) -> getitem k (update d e) = getitem k d.
Proof.
  unfold update. revert d.
  induction e as [|[k0 v0] r IH]; intros d Hk; cbn [fold_left fst snd].
  - reflexivity.
  - rewrite IH by (intros H; apply Hk; right; exact H).
    rewrite getitem_setitem.
    destruct (String.eqb_spec k0 k) as [->|_]; [|reflexivity].
    exfalso. apply Hk. now left.
Qed.

Lemma keys_update (d e : dict V) :
  keys (update d e) = fold_left (fun ks k => add_key k ks) (keys e) (keys d).
Proof.
  unfold update. revert d.
  induction e as [|[k0 v0] r IH]; intros d.
  - reflexivity.
  - change (keys ((k0, v0) :: r)) with (k0 :: keys r).
    cbn [fold_left fst snd]. rewrite IH, keys_setitem. reflexivity.
Qed.

End DictFacts.

(* ------------------------------------------------------------------ *)
(** ** Feature extractor *)

Section FeatureFacts.
Context {L : Library}.

Lemma item_nth (a : list float) (i : nat) :
  (i < List.length a)%nat -> item a i = inr (nth i a nan).
Proof.
  intros H. unfold item. rewrite (nth_error_nth' a nan H). reflexivity.
Qed.

Lemma sample_targets_total (freq mag phase : list float) :
  freq <> [] ->
  List.length mag = List.length freq ->
  List.length phase = List.length freq ->
  forall targets features,
    sample_targets targets freq mag phase features
    = inr (sampled_with (fun t => nth (nearest freq t) mag nan)
                        (fun t => nth (nearest freq t) phase nan)
                        targets features).
Proof.
  intros Hne Hm Hp. induction targets as [|t ts IH]; intros features.
  - reflexivity.
  - cbn [sample_targets sampled_with fold_left].
    destruct (argmin_in_range (map (distance (lit_value t)) freq))
      as [i [Hi Hlt]].
    { destruct freq; [congruence|discriminate]. }
    rewrite length_map in Hlt.
    assert (Hn : nearest freq t = i) by (unfold nearest; now rewrite Hi).
    rewrite Hn, Hi. cbn [bind].
    rewrite !item_nth by lia. cbn [bind]. rewrite IH. reflexivity.
Qed.

Lemma keys_sampled_with vm vp targets : forall features,
  keys (sampled_with vm vp targets features)
  = fold_left (fun ks t => add_key (phase_key t) (add_key (Zmag_key t) ks))
      targets (keys features).
Proof.
  induction targets as [|t ts IH]; intros features;
    cbn [sampled_with fold_left].
  - reflexivity.
  - unfold sampled_with in IH. rewrite IH, !keys_setitem. reflexivity.
Qed.

Lemma getitem_sampled_with vm vp features t :
  In t f_targets ->
  getitem (Zmag_key t) (sampled_with vm vp f_targets features) = Some (vm t)
  /\ getitem (phase_key t) (sampled_with vm vp f_targets features)
     = Some (vp t).
Proof.
  intros H. unfold sampled_with. cbn [f_targets fold_left].
  cbn [f_targets In] in H.
  repeat (destruct H as [<-|H]); try contradiction;
    rewrite !getitem_setitem; split; vm_compute; reflexivity.
Qed.

(** The run of the extractor on a non-empty group, step by step. *)
Lemma compute_impedance_features_total (group : list SpectrumPoint) :
  group <> [] ->
  let g := sort_values group in
  let freq := map frequency_hz g in
  let z_cplx := map (fun p => z_complex (z_real_ohm p) (z_imag_ohm p)) g in
  let mag := map np_abs z_cplx in
  let phase := map np_angle z_cplx in
  exists R_hf R_lf,
    compute_impedance_features group
    = inr (sampled_with (fun t => nth (nearest freq t) mag nan)
             (fun t => nth (nearest freq t) phase nan) f_targets
             [ ("R_hf_ohm", R_hf);
               ("R_lf_ohm", R_lf);
               ("delta_R_ohm", (R_lf - R_hf)%float);
               ("Zmag_mean", np_mean mag);
               ("Zmag_std", np_std mag);
               ("Zmag_min", np_min mag);
               ("Zmag_max", np_max mag);
               ("phase_mean", np_mean phase);
               ("phase_std", np_std phase) ]).
Proof.
  intros Hne g freq z_cplx mag phase.
  assert (Hg : g <> []) by now apply sort_values_nonempty.
  assert (Hf : freq <> []).
  { unfold freq. destruct g; [congruence|discriminate]. }
  destruct (argmax_in_range freq Hf) as [ihf [Hhf Hhf_lt]].
  destruct (argmin_in_range freq Hf) as [ilf [Hlf Hlf_lt]].
  unfold freq in Hhf_lt, Hlf_lt. rewrite length_map in Hhf_lt, Hlf_lt.
  exists (nth ihf (map z_real_ohm g) nan), (nth ilf (map z_real_ohm g) nan).
  unfold compute_impedance_features. fold g. fold freq.
  rewrite Hhf, Hlf. cbn [bind].
  rewrite !item_nth by (rewrite length_map; assumption). cbn [bind].
  fold z_cplx. fold mag. fold phase.
  apply sample_targets_total; [exact Hf| |];
    unfold mag, phase, z_cplx, freq; now rewrite !length_map.
Qed.

Lemma feature_keys_value :
  feature_keys =
  [ "R_hf_ohm"; "R_lf_ohm"; "delta_R_ohm"; "Zmag_mean"; "Zmag_std";
    "Zmag_min"; "Zmag_max"; "phase_mean"; "phase_std";
    "Zmag_f0p01"; "phase_f0p01"; "Zmag_f0p1"; "phase_f0p1";
    "Zmag_f1p0"; "phase_f1p0"; "Zmag_f10p0"; "phase_f10p0";
    "Zmag_f100p0"; "phase_f100p0"; "Zmag_f1000p0"; "phase_f1000p0";
    "Zmag_f10000p0"; "phase_f10000p0" ].
Proof. vm_compute. reflexivity. Qed.

(** The extractor returns on a non-empty group, and the keys of its
    dictionary are the summary keys followed by the target keys. *)
Lemma compute_impedance_features_returns (group : list SpectrumPoint) :
  group <> [] ->
  exists feats,
    compute_impedance_features group = inr feats
    /\ keys feats = feature_keys.
Proof.
  intros Hne.
  destruct (compute_impedance_features_total group Hne) as [R_hf [R_lf H]].
  cbv zeta in H. eexists. split; [exact H|].
  rewrite keys_sampled_with. vm_compute. reflexivity.
Qed.

(** C5: on a group with at least one point the extractor returns, and
    the dictionary returned has 23 keys, all different: the nine summary
    features followed by the Zmag and phase keys of the seven targets. *)
Theorem compute_impedance_features_keys (group : list SpectrumPoint) :
  group <> [] ->
  exists feats,
    compute_impedance_features group = inr feats
    /\ ~ raises (compute_impedance_features group)
    /\ keys feats =
       [ "R_hf_ohm"; "R_lf_ohm"; "delta_R_ohm"; "Zmag_mean"; "Zmag_std";
         "Zmag_min"; "Zmag_max"; "phase_mean"; "phase_std";
         "Zmag_f0p01"; "phase_f0p01"; "Zmag_f0p1"; "phase_f0p1";
         "Zmag_f1p0"; "phase_f1p0"; "Zmag_f10p0"; "phase_f10p0";
         "Zmag_f100p0"; "phase_f100p0"; "Zmag_f1000p0"; "phase_f1000p0";
         "Zmag_f10000p0"; "phase_f10000p0" ]
    /\ List.length (keys feats) = 23%nat
    /\ NoDup (keys feats).
Proof.
  intros Hne.
  destruct (compute_impedance_features_returns group Hne)
    as [feats [Hf Hkeys]].
  exists feats. split; [exact Hf|]. split.
  { intros [e He]. rewrite Hf in He. discriminate He. }
  rewrite Hkeys, feature_keys_value.
  split; [reflexivity|]. split; [reflexivity|].
  repeat (constructor; [cbn [In]; intuition discriminate|]).
  constructor.
Qed.

(** On an empty group the extractor raises. *)
Lemma compute_impedance_features_empty :
  compute_impedance_features []
  = inl (ValueError "attempt to get argmax of an empty sequence").
Proof.
  unfold compute_impedance_features. rewrite sort_values_nil. reflexivity.
Qed.

Lemma nth_error_map_inv {A B} (f : A -> B) (l : list A) (i : nat) (y : B) :
  nth_error (map f l) i = Some y ->
  exists x, nth_error l i = Some x /\ y = f x.
Proof.
  rewrite nth_error_map. destruct (nth_error l i) as [x|]; [|discriminate].
  intros [= <-]. eauto.
Qed.

Lemma f_targets_finite (t : literal) :
  In t f_targets -> is_finite (lit_value t) = true.
Proof.
  cbn [f_targets In]. intros H.
  repeat (destruct H as [<-|H]); try contradiction; reflexivity.
Qed.

End FeatureFacts.

Lemma compute_impedance_features_keys_witness :
  sparse_example <> []
  /\ exists feats,
       compute_impedance_features (L := plain_library) sparse_example
       = inr feats
       /\ List.length (keys feats) = 23%nat.
Proof.
  assert (H : sparse_example <> []) by discriminate.
  split; [exact H|].
  destruct (compute_impedance_features_keys (L := plain_library)
              sparse_example H) as [feats [Hf [_ [_ [Hlen _]]]]].
  exists feats. split; [exact Hf|exact Hlen].
Defined.

(* ------------------------------------------------------------------ *)
(** ** Grouping *)

Section KeyFacts.

Lemma key_eqb_eq (a b : group_key) : key_eqb a b = true <-> a = b.
Proof.
  revert b. induction a as [|x a IH]; intros [|y b]; cbn [key_eqb];
    try (split; [discriminate|congruence]); [tauto|].
  rewrite andb_true_iff, Z.eqb_eq, IH. split.
  - intros [-> ->]. reflexivity.
  - intros [= -> ->]. auto.
Qed.

Lemma key_ltb_irrefl (a : group_key) : key_ltb a a = false.
Proof.
  induction a as [|x a IH]; cbn [key_ltb]; [reflexivity|].
  rewrite Z.ltb_irrefl, Z.eqb_refl, IH. reflexivity.
Qed.

Lemma key_ltb_trans (a b c : group_key) :
  key_ltb a b = true -> key_ltb b c = true -> key_ltb a c = true.
Proof.
  revert b c. induction a as [|x a IH]; intros [|y b] [|z c];
    cbn [key_ltb]; try discriminate; try reflexivity.
  rewrite !orb_true_iff, !andb_true_iff, !Z.ltb_lt, !Z.eqb_eq.
  intros [Hxy|[-> Hab]] [Hyz|[-> Hbc]].
  - left. lia.
  - now left.
  - now left.
  - right. split; [reflexivity|]. eapply IH; eassumption.
Qed.

Lemma In_insert_key (k k' : group_key) (ks : list group_key) :
  In k' (insert_key k ks) <-> k' = k \/ In k' ks.
Proof.
  induction ks as [|h t IH]; cbn [insert_key In]; [intuition congruence|].
  destruct (key_eqb k h) eqn:He.
  - apply key_eqb_eq in He. subst. cbn [In]. intuition congruence.
  - destruct (key_ltb k h); cbn [In]; [intuition congruence|].
    rewrite IH. intuition congruence.
Qed.

Lemma insert_key_sorted (k : group_key) (ks : list group_key) :
  StronglySorted key_lt ks -> StronglySorted key_lt (insert_key k ks).
Proof.
  induction 1 as [|h t Hs IH Hall]; cbn [insert_key].
  - repeat constructor.
  - destruct (key_eqb k h) eqn:He; [now constructor|].
    destruct (key_ltb k h) eqn:Hlt.
    + constructor; [now constructor|]. constructor; [exact Hlt|].
      rewrite Forall_forall in *. intros x Hx.
      eapply key_ltb_trans; [exact Hlt|]. now apply Hall.
    + constructor; [exact IH|]. rewrite Forall_forall in *.
      intros x Hx. apply In_insert_key in Hx. destruct Hx as [->|Hx];
        [|now apply Hall].
      (* h and k differ and k is not below h *)
      clear -He Hlt. revert h He Hlt.
      induction k as [|x k IHk]; intros [|y h]; cbn [key_eqb key_ltb];
        try discriminate; try reflexivity.
      unfold key_lt in *. cbn [key_ltb].
      rewrite orb_false_iff, Z.ltb_ge. intros He [Hxy Hk].
      destruct (Z.eqb_spec x y) as [->|Hne].
      * cbn [andb] in *. rewrite Z.ltb_irrefl, Z.eqb_refl. cbn [orb andb].
        now apply IHk.
      * assert (Hlt : (y <? x) = true) by (apply Z.ltb_lt; lia).
        rewrite Hlt. reflexivity.
Qed.

Lemma group_keys_spec (df : list LongRow) :
  StronglySorted key_lt (group_keys df)
  /\ forall k, In k (group_keys df) <-> exists r, In r df /\ key_of r = k.
Proof.
  unfold group_keys.
  assert (H : forall ks,
             StronglySorted key_lt ks ->
             StronglySorted key_lt
               (fold_left (fun ks r => insert_key (key_of r) ks) df ks)
             /\ forall k,
                 In k (fold_left (fun ks r => insert_key (key_of r) ks) df ks)
                 <-> In k ks \/ exists r, In r df /\ key_of r = k).
  { induction df as [|r df IH]; intros ks Hs; cbn [fold_left].
    - split; [exact Hs|]. intros k. split; [now left|].
      intros [H|[r [[] _]]]. exact H.
    - destruct (IH _ (insert_key_sorted (key_of r) ks Hs)) as [Hs' Hin].
      split; [exact Hs'|]. intros k. rewrite Hin, In_insert_key. split.
      + intros [[->|H]|[r' [Hr' Hk]]].
        * right. exists r. split; [now left|reflexivity].
        * now left.
        * right. exists r'. split; [now right|exact Hk].
      + intros [H|[r' [[->|Hr'] Hk]]].
        * left. now right.
        * left. left. now symmetry.
        * right. exists r'. auto. }
  destruct (H [] (SSorted_nil _)) as [Hs Hin]. split; [exact Hs|].
  intros k. rewrite Hin. split; [intros [[]|H']; exact H'|now right].
Qed.




End KeyFacts.

(* ------------------------------------------------------------------ *)
(** ** Feature table builder *)

Section BuilderFacts.
Context {L : Library}.

Lemma key_of_shape (r : LongRow) :
  exists a b c d, key_of r = [a; b; c; d].
Proof. unfold key_of. eauto. Qed.

(** One record of the table: the four key columns, then the features. *)
Lemma record_shape (a b c d : Z) (feats : dict float) :
  keys feats = feature_keys ->
  let record :=
    update (dict_zip GROUP_COLS [a; b; c; d])
           (map (fun kv => (fst kv, VFloat (snd kv))) feats) in
  keys record = table_columns
  /\ record_key record = stored_key [a; b; c; d].
Proof.
  intros Hk record.
  assert (Hk' : keys (map (fun kv : string * float =>
                             (fst kv, VFloat (snd kv))) feats)
                = feature_keys).
  { rewrite <- Hk. unfold keys. rewrite map_map. reflexivity. }
  split.
  - unfold record. rewrite keys_update, Hk'. vm_compute. reflexivity.
  - unfold record, record_key, GROUP_COLS. cbn [map].
    rewrite !getitem_update_other
      by (rewrite Hk', feature_keys_value; cbn [In]; intuition discriminate).
    reflexivity.
Qed.

Lemma feature_records_total (groups : list (group_key * list LongRow)) :
  Forall (fun g => snd g <> [] /\ exists a b c d, fst g = [a; b; c; d])
         groups ->
  exists recs,
    feature_records groups = inr recs
    /\ Forall (fun record => keys record = table_columns) recs
    /\ map record_key recs = map (fun g => stored_key (fst g)) groups.
Proof.
  induction 1 as [|[k rows] gs [Hne [a [b [c [d Hk]]]]] Hgs IH];
    cbn [feature_records].
  - exists []. repeat split. constructor.
  - cbn [fst snd] in Hne, Hk. subst k.
    destruct (compute_impedance_features_returns (map point rows))
      as [feats [Hf Hkeys]].
    { destruct rows; [congruence|discriminate]. }
    destruct IH as [recs [Hrecs [Hall Hmap]]].
    rewrite Hf, Hrecs. cbn [bind ret].
    destruct (record_shape a b c d feats Hkeys) as [Hcols Hkey].
    eexists. split; [reflexivity|]. split.
    + constructor; [exact Hcols|exact Hall].
    + cbn [map fst]. rewrite Hkey, Hmap. reflexivity.
Qed.

Lemma groupby_groups (df : list LongRow) :
  Forall (fun g => snd g <> [] /\ exists a b c d, fst g = [a; b; c; d])
         (groupby df)
  /\ map fst (groupby df) = group_keys df.
Proof.
  unfold groupby. split.
  - rewrite Forall_map, Forall_forall. intros k Hk. cbn [fst snd].
    apply group_keys_spec in Hk. destruct Hk as [r [Hr <-]]. split.
    + intros Hnil.
      assert (Hin : In r (filter (fun r0 => key_eqb (key_of r0) (key_of r)) df)).
      { apply filter_In. split; [exact Hr|]. now apply key_eqb_eq. }
      rewrite Hnil in Hin. contradiction.
    + apply key_of_shape.
  - rewrite map_map. cbn [fst]. apply map_id.
Qed.

(** The builder always returns on a typed long-format table, with one
    record per group key, in key order. *)
Lemma build_impedance_feature_table_total (df : list LongRow) :
  exists recs,
    build_impedance_feature_table df = inr (DataFrame_of_records recs)
    /\ Forall (fun record => keys record = table_columns) recs
    /\ map record_key recs = map stored_key (group_keys df).
Proof.
  destruct (groupby_groups df) as [Hg Hk].
  destruct (feature_records_total _ Hg) as [recs [Hrecs [Hall Hmap]]].
  exists recs. unfold build_impedance_feature_table. rewrite Hrecs.
  split; [reflexivity|]. split; [exact Hall|].
  rewrite Hmap, <- Hk, map_map. reflexivity.
Qed.

Lemma group_keys_nonempty (df : list LongRow) :
  df <> [] -> group_keys df <> [].
Proof.
  destruct df as [|r df]; [congruence|]. intros _ Hnil.
  assert (Hin : In (key_of r) (group_keys (r :: df))).
  { apply group_keys_spec. exists r. split; [now left|reflexivity]. }
  rewrite Hnil in Hin. contradiction.
Qed.

Lemma add_columns_first (record : dict value) :
  keys record = table_columns -> add_columns [] record = table_columns.
Proof.
  intros H. unfold add_columns. rewrite H. vm_compute. reflexivity.
Qed.

Lemma add_columns_again (record : dict value) :
  keys record = table_columns ->
  add_columns table_columns record = table_columns.
Proof.
  intros H. unfold add_columns. rewrite H. vm_compute. reflexivity.
Qed.

Lemma columns_of_records (recs : list (dict value)) :
  recs <> [] ->
  Forall (fun record => keys record = table_columns) recs ->
  columns (DataFrame_of_records recs) = table_columns.
Proof.
  destruct recs as [|r0 recs]; [congruence|]. intros _ Hall.
  inversion Hall as [|? ? H0 Hrest]; subst.
  cbn [DataFrame_of_records columns fold_left].
  rewrite (add_columns_first r0 H0).
  induction Hrest as [|r rs Hr Hrs IH]; cbn [fold_left]; [reflexivity|].
  rewrite (add_columns_again r Hr). apply IH. constructor; assumption.
Qed.


(** C8, as the code has it: built from a table with at least one row,
    the feature table has 27 columns: the four grouping columns, the nine
    summary features, then Zmag_f<tag> and phase_f<tag> for each of the
    seven targets in turn, the tag being the string of the target with
    its decimal point replaced by the letter p; every record has a value
    in each of them. *)
Theorem feature_table_columns (df : list LongRow) :
  df <> [] ->
  exists table,
    build_impedance_feature_table df = inr table
    /\ columns table =
       (GROUP_COLS ++ summary_keys
        ++ flat_map (fun t => [Zmag_key t; phase_key t]) f_targets)%list
    /\ (forall t, Zmag_key t = "Zmag_f" ++ Py.replace "." "p" (lit_str t)
                  /\ phase_key t = "phase_f" ++ Py.replace "." "p" (lit_str t))
    /\ columns table =
       [ "cell_id"; "soh_pct"; "temp_c"; "soc_pct";
         "R_hf_ohm"; "R_lf_ohm"; "delta_R_ohm"; "Zmag_mean"; "Zmag_std";
         "Zmag_min"; "Zmag_max"; "phase_mean"; "phase_std";
         "Zmag_f0p01"; "phase_f0p01"; "Zmag_f0p1"; "phase_f0p1";
         "Zmag_f1p0"; "phase_f1p0"; "Zmag_f10p0"; "phase_f10p0";
         "Zmag_f100p0"; "phase_f100p0"; "Zmag_f1000p0"; "phase_f1000p0";
         "Zmag_f10000p0"; "phase_f10000p0" ]
    /\ List.length (columns table) = 27%nat
    /\ NoDup (columns table)
    /\ map lit_str f_targets
       = ["0.01"; "0.1"; "1.0"; "10.0"; "100.0"; "1000.0"; "10000.0"]
    /\ Forall (fun record => keys record = columns table) (records table).
Proof.
  intros Hne.
  destruct (build_impedance_feature_table_total df)
    as [recs [Hb [Hall Hkeys]]].
  assert (Hrecs : recs <> []).
  { intros ->. apply (group_keys_nonempty df Hne).
    destruct (group_keys df); [reflexivity|discriminate]. }
  pose proof (columns_of_records recs Hrecs Hall) as Hcols.
  eexists. split; [exact Hb|]. rewrite Hcols.
  split; [reflexivity|]. split; [intros t; split; reflexivity|].
  split; [vm_compute; reflexivity|].
  split; [reflexivity|]. split; [|split; [reflexivity|exact Hall]].
  vm_compute.
  repeat (constructor; [cbn [In]; intuition discriminate|]).
  constructor.
Qed.

(** C10: a long-format table without rows gives a feature table without
    records, and no error. *)
Theorem build_empty_table :
  build_impedance_feature_table [] = inr (mkDataFrame [] [])
  /\ ~ raises (build_impedance_feature_table [])
  /\ (forall table, build_impedance_feature_table [] = inr table ->
                    records table = []).
Proof.
  split; [reflexivity|]. split.
  - intros [e He]. discriminate He.
  - intros table [= <-]. reflexivity.
Qed.

End BuilderFacts.

Lemma feature_table_columns_witness :
  two_capacity_codes <> []
  /\ exists table,
       build_impedance_feature_table (L := plain_library) two_capacity_codes
       = inr table
       /\ List.length (columns table) = 27%nat.
Proof.
  assert (H : two_capacity_codes <> []) by discriminate.
  split; [exact H|].
  destruct (feature_table_columns (L := plain_library) two_capacity_codes H)
    as [table [Hb [_ [_ [_ [Hlen _]]]]]].
  exists table. split; [exact Hb|exact Hlen].
Defined.

(** Built from a table without rows, the feature table has no column. *)
Lemma feature_table_without_rows_has_no_column :
  exists table,
    build_impedance_feature_table (L := plain_library) [] = inr table
    /\ columns table = []
    /\ List.length (columns table) <> 27%nat.
Proof.
  eexists. split; [reflexivity|]. split; [reflexivity|]. discriminate.
Qed.

(** Two files that differ in their capacity code only: the long-format
    table keeps both codes, the feature table has a single record, under
    the key (1, 100, 25, 50). *)
Example two_files_one_record :
  exists id1 id2 long_df table,
    map (fun f => parse_eis_filename (fst f)) two_files = [inr id1; inr id2]
    /\ load_all_eis (L := plain_library) [(id1, snd (nth 0 two_files ("", mkSheet 0 [])));
                                          (id2, snd (nth 1 two_files ("", mkSheet 0 [])))]
       = inr long_df
    /\ map (fun r => capacity_code (identity r)) long_df = [1000; 1001]
    /\ build_impedance_feature_table (L := plain_library) long_df = inr table
    /\ map record_key (records table) = [stored_key [1; 100; 25; 50]].
Proof.
  do 4 eexists. split; [vm_compute; reflexivity|].
  split; [vm_compute; reflexivity|]. split; [reflexivity|].
  split; [vm_compute; reflexivity|]. reflexivity.
Qed.

(* ------------------------------------------------------------------ *)
(** ** Strings *)

Section StringFacts.

Lemma length_append (a b : string) :
  String.length (a ++ b) = (String.length a + String.length b)%nat.
Proof. induction a as [|c a IH]; cbn; [reflexivity|now rewrite IH]. Qed.

Lemma append_nil_r (a : string) : a ++ "" = a.
Proof. induction a as [|c a IH]; cbn; [reflexivity|now rewrite IH]. Qed.

Lemma append_assoc (a b c : string) : (a ++ b) ++ c = a ++ (b ++ c).
Proof. induction a as [|x a IH]; cbn; [reflexivity|now rewrite IH]. Qed.

Lemma substring_prefix (a b : string) :
  substring 0 (String.length a) (a ++ b) = a.
Proof.
  induction a as [|c a IH]; cbn.
  - destruct b; reflexivity.
  - now rewrite IH.
Qed.

Lemma str_forall_app p a b :
  str_forall p (a ++ b) = str_forall p a && str_forall p b.
Proof.
  induction a as [|c a IH]; cbn; [reflexivity|].
  now rewrite IH, andb_assoc.
Qed.

Lemma str_forall_impl (p q : ascii -> bool) s :
  (forall c, p c = true -> q c = true) ->
  str_forall p s = true -> str_forall q s = true.
Proof.
  intros Hpq. induction s as [|c r IH]; cbn; [reflexivity|].
  rewrite !andb_true_iff. intros [Hc Hr]. auto.
Qed.

Lemma rfind_none_app c a b :
  Py.rfind c b = None ->
  Py.rfind c (a ++ String c b) = Some (String.length a).
Proof.
  intros Hb. induction a as [|x a IH]; cbn.
  - rewrite Hb, Ascii.eqb_refl. reflexivity.
  - rewrite IH. reflexivity.
Qed.

Lemma split_no_sep sep a :
  str_forall (fun c => negb (Ascii.eqb c sep)) a = true ->
  Py.split sep a = [a].
Proof.
  induction a as [|c a IH]; cbn; [reflexivity|].
  rewrite andb_true_iff, negb_true_iff. intros [Hc Ha].
  rewrite Hc, (IH Ha). reflexivity.
Qed.

Lemma split_app sep a b :
  str_forall (fun c => negb (Ascii.eqb c sep)) a = true ->
  Py.split sep (a ++ String sep b) = a :: Py.split sep b.
Proof.
  induction a as [|c a IH]; cbn.
  - intros _. rewrite Ascii.eqb_refl. reflexivity.
  - rewrite andb_true_iff, negb_true_iff. intros [Hc Ha].
    rewrite Hc, (IH Ha). reflexivity.
Qed.

Lemma replace_go_app_no_head h old' new a b :
  str_forall (fun c => negb (Ascii.eqb h c)) a = true ->
  Py.replace_go (String h old') new (a ++ b) 0
  = a ++ Py.replace_go (String h old') new b 0.
Proof.
  induction a as [|c a IH]; cbn [append str_forall]; [reflexivity|].
  rewrite andb_true_iff, negb_true_iff. intros [Hc Ha].
  cbn [Py.replace_go Py.startswith]. rewrite Hc. cbn [andb].
  now rewrite (IH Ha).
Qed.

Lemma replace_no_head h old' new a :
  str_forall (fun c => negb (Ascii.eqb h c)) a = true ->
  Py.replace (String h old') new a = a.
Proof.
  intros Ha. unfold Py.replace.
  rewrite <- (append_nil_r a) at 1.
  rewrite (replace_go_app_no_head h old' new a "" Ha). cbn.
  apply append_nil_r.
Qed.

Lemma strip_no_space s :
  str_forall (fun c => negb (Py.isspace c)) s = true -> Py.strip s = s.
Proof.
  intros H. unfold Py.strip.
  assert (Hl : Py.lstrip s = s).
  { destruct s as [|c r]; [reflexivity|]. cbn in H |- *.
    apply andb_true_iff in H. destruct H as [Hc _].
    apply negb_true_iff in Hc. now rewrite Hc. }
  rewrite Hl. induction s as [|c r IH]; [reflexivity|].
  cbn [str_forall] in H. apply andb_true_iff in H. destruct H as [Hc Hr].
  apply negb_true_iff in Hc. cbn [Py.rstrip].
  rewrite IH; [|exact Hr|destruct r as [|c' r']; [reflexivity|];
    cbn in Hr |- *; apply andb_true_iff in Hr; destruct Hr as [Hc' _];
    apply negb_true_iff in Hc'; now rewrite Hc'].
  destruct r; [now rewrite Hc|reflexivity].
Qed.

(** *** Integers as [str] prints them *)

Lemma string_of_uint_digits d :
  str_forall is_digit (NilEmpty.string_of_uint d) = true.
Proof. induction d; cbn; auto. Qed.

Lemma digits_string_of_uint d :
  Py.digits (NilEmpty.string_of_uint d) true = Some d.
Proof. induction d; cbn; try rewrite IHd; reflexivity. Qed.

Lemma digits_string_of_uint_first d :
  d <> Nil -> Py.digits (NilEmpty.string_of_uint d) false = Some d.
Proof.
  destruct d; [congruence| | | | | | | | | |]; intros _; cbn;
    rewrite digits_string_of_uint; reflexivity.
Qed.

Lemma str_int_numchars z : str_forall is_numchar (Py.str_int z) = true.
Proof.
  unfold Py.str_int.
  assert (H : forall d, str_forall is_numchar (NilEmpty.string_of_uint d)
                        = true).
  { intros d. eapply str_forall_impl; [|apply string_of_uint_digits].
    intros c Hc. unfold is_numchar. now rewrite Hc. }
  destruct (Z.to_int z); cbn; auto.
Qed.

Lemma str_int_no (p : ascii -> bool) z :
  (forall c, is_numchar c = true -> p c = true) ->
  str_forall p (Py.str_int z) = true.
Proof.
  intros H. eapply str_forall_impl; [exact H|apply str_int_numchars].
Qed.

Lemma int_string_of_uint d :
  d <> Nil ->
  Py.int (NilEmpty.string_of_uint d) = Some (Z.of_uint d)
  /\ Py.int (String "-" (NilEmpty.string_of_uint d))
     = Some (- Z.of_uint d).
Proof.
  intros Hd. unfold Py.int.
  rewrite !strip_no_space.
  - split.
    + destruct d; [congruence| | | | | | | | | |];
        cbn -[Z.of_uint]; rewrite digits_string_of_uint; reflexivity.
    + rewrite (digits_string_of_uint_first d Hd). reflexivity.
  - cbn [str_forall]. apply andb_true_iff. split; [reflexivity|].
    eapply str_forall_impl; [|apply string_of_uint_digits].
    intros c. destruct c as [[|] [|] [|] [|] [|] [|] [|] [|]]; vm_compute;
      congruence.
  - eapply str_forall_impl; [|apply string_of_uint_digits].
    intros c. destruct c as [[|] [|] [|] [|] [|] [|] [|] [|]]; vm_compute;
      congruence.
Qed.

(** [int(str(z)) == z] *)
Lemma int_str_int z : Py.int (Py.str_int z) = Some z.
Proof.
  unfold Py.str_int. destruct z as [|p|p]; cbn [Z.to_int].
  - reflexivity.
  - cbn [NilEmpty.string_of_int].
    destruct (int_string_of_uint (Pos.to_uint p)
                (DecimalPos.Unsigned.to_uint_nonnil p)) as [H _].
    rewrite H. unfold Z.of_uint. now rewrite DecimalPos.Unsigned.of_to.
  - cbn [NilEmpty.string_of_int].
    destruct (int_string_of_uint (Pos.to_uint p)
                (DecimalPos.Unsigned.to_uint_nonnil p)) as [_ H].
    rewrite H. unfold Z.of_uint. now rewrite DecimalPos.Unsigned.of_to.
Qed.

(** [int()] strips blanks and the no-break space around a number, and
    refuses a separator character (code 28) there. *)
Example int_white_space :
  Py.int " 9505 " = Some 9505
  /\ Py.int (String (ascii_of_nat 160) "9505") = Some 9505
  /\ Py.int (String (ascii_of_nat 133) "9505") = Some 9505
  /\ Py.int (String (ascii_of_nat 28) "9505") = None
  /\ Py.int (String (ascii_of_nat 31) "9505") = None.
Proof. repeat split; reflexivity. Qed.

End StringFacts.

(* ------------------------------------------------------------------ *)
(** ** Filename decoder *)

Section DecoderFacts.

Lemma numchar_not (x : ascii) :
  is_numchar x = false -> forall c, is_numchar c = true ->
  negb (Ascii.eqb x c) = true /\ negb (Ascii.eqb c x) = true.
Proof.
  intros Hx c Hc. rewrite !negb_true_iff. split.
  - destruct (Ascii.eqb_spec x c) as [->|]; [congruence|reflexivity].
  - destruct (Ascii.eqb_spec c x) as [->|]; [congruence|reflexivity].
Qed.

Lemma str_int_without (x : ascii) z :
  is_numchar x = false ->
  str_forall (fun c => negb (Ascii.eqb x c)) (Py.str_int z) = true
  /\ str_forall (fun c => negb (Ascii.eqb c x)) (Py.str_int z) = true.
Proof.
  intros Hx. split; apply str_int_no; intros c Hc;
    now apply (numchar_not x Hx c Hc).
Qed.

Lemma replace_tag_prefix s :
  str_forall (fun c => negb (Ascii.eqb "C" c)) s = true ->
  Py.replace "Cell" "" ("Cell" ++ s) = s.
Proof.
  intros H. unfold Py.replace. cbn.
  now apply (replace_no_head "C" "ell" "" s).
Qed.

Lemma replace_tag_suffix h tag' s :
  str_forall (fun c => negb (Ascii.eqb h c)) s = true ->
  Py.replace_go (String h tag') "" (String h tag') 0 = "" ->
  Py.replace (String h tag') "" (s ++ String h tag') = s.
Proof.
  intros H Htag. unfold Py.replace.
  rewrite (replace_go_app_no_head h tag' "" s _ H), Htag.
  apply append_nil_r.
Qed.

Lemma stem_of_dotted (x ext : string) :
  x <> "" -> ext <> "" -> Py.rfind "." ext = None ->
  stem (x ++ String "." ext) = x.
Proof.
  intros Hx Hext Hdot. unfold stem. rewrite (rfind_none_app _ _ _ Hdot).
  rewrite length_append. cbn [String.length].
  destruct x as [|c x]; [congruence|]. destruct ext as [|e ext]; [congruence|].
  cbn [String.length].
  replace (0 <? S (String.length x))%nat with true
    by (symmetry; apply Nat.ltb_lt; lia).
  replace (S (String.length x) <?
           S (String.length x) + S (S (String.length ext)) - 1)%nat
    with true by (symmetry; apply Nat.ltb_lt; lia).
  cbn [andb].
  exact (substring_prefix (String c x) (String "." (String e ext))).
Qed.

(** The decoder on a name made of five fields without underscore and an
    extension without dot: the tokens are the five fields. *)
Lemma parse_five_fields (a b c d e ext : string) :
  let no_us := str_forall (fun x => negb (Ascii.eqb x "_")) in
  no_us a = true -> no_us b = true -> no_us c = true -> no_us d = true ->
  no_us e = true ->
  ext <> "" -> Py.rfind "." ext = None ->
  Py.split "_"
    (stem (a ++ "_" ++ b ++ "_" ++ c ++ "_" ++ d ++ "_" ++ e ++ "." ++ ext))
  = [a; b; c; d; e].
Proof.
  intros no_us Ha Hb Hc Hd He Hext Hdot.
  replace (a ++ "_" ++ b ++ "_" ++ c ++ "_" ++ d ++ "_" ++ e ++ "." ++ ext)
    with ((a ++ "_" ++ b ++ "_" ++ c ++ "_" ++ d ++ "_" ++ e)
          ++ String "." ext)
    by (rewrite !append_assoc; reflexivity).
  rewrite stem_of_dotted; [|destruct a; discriminate|exact Hext|exact Hdot].
  change (a ++ "_" ++ b ++ "_" ++ c ++ "_" ++ d ++ "_" ++ e)
    with (a ++ String "_" (b ++ String "_" (c ++ String "_"
            (d ++ String "_" e)))).
  rewrite !split_app by assumption.
  now rewrite split_no_sep.
Qed.

Lemma encode_fields (id : TestIdentity) (ext : string) :
  encode_eis_filename id ext
  = ("Cell" ++ Py.str_int (cell_id id)) ++ "_"
    ++ (Py.str_int (soh_pct id) ++ "SOH") ++ "_"
    ++ (Py.str_int (temp_c id) ++ "degC") ++ "_"
    ++ (Py.str_int (soc_pct id) ++ "SOC") ++ "_"
    ++ Py.str_int (capacity_code id) ++ "." ++ ext.
Proof.
  unfold encode_eis_filename. rewrite !append_assoc. reflexivity.
Qed.

Lemma parse_encode (id : TestIdentity) (ext : string) :
  ext <> "" -> Py.rfind "." ext = None ->
  parse_eis_filename (encode_eis_filename id ext) = inr id.
Proof.
  intros Hext Hdot. unfold parse_eis_filename.
  rewrite encode_fields, parse_five_fields; try assumption.
  - rewrite replace_tag_prefix
      by (apply (str_int_without "C"); reflexivity).
    rewrite !replace_tag_suffix
      by (try reflexivity; apply (str_int_without "S") ||
          apply (str_int_without "d"); reflexivity).
    unfold int_or_raise. rewrite !int_str_int. cbn.
    destruct id; reflexivity.
  - rewrite str_forall_app. apply andb_true_iff. split; [reflexivity|].
    apply (str_int_without "_"). reflexivity.
  - rewrite str_forall_app. apply andb_true_iff. split; [|reflexivity].
    apply (str_int_without "_"). reflexivity.
  - rewrite str_forall_app. apply andb_true_iff. split; [|reflexivity].
    apply (str_int_without "_"). reflexivity.
  - rewrite str_forall_app. apply andb_true_iff. split; [|reflexivity].
    apply (str_int_without "_"). reflexivity.
  - apply (str_int_without "_"). reflexivity.
Qed.

(** C7, as the code has it: a name written by the template from five
    integers in plain decimal, with an extension that is not empty and
    has no dot, decodes to these five integers, and encoding what was
    decoded gives the name back. *)
Theorem roundtrip_plain_decimal (id : TestIdentity) (ext : string) :
  ext <> "" -> Py.rfind "." ext = None ->
  parse_eis_filename (encode_eis_filename id ext) = inr id
  /\ forall id',
       parse_eis_filename (encode_eis_filename id ext) = inr id' ->
       encode_eis_filename id' ext = encode_eis_filename id ext.
Proof.
  intros Hext Hdot. pose proof (parse_encode id ext Hext Hdot) as H.
  split; [exact H|]. intros id' H'. rewrite H in H'.
  injection H' as <-. reflexivity.
Qed.

Lemma roundtrip_plain_decimal_witness :
  "xls" <> "" /\ Py.rfind "." "xls" = None
  /\ parse_eis_filename (encode_eis_filename (mkIdentity 2 95 15 5 9505) "xls")
     = inr (mkIdentity 2 95 15 5 9505).
Proof.
  assert (H1 : "xls" <> "") by discriminate.
  assert (H2 : Py.rfind "." "xls" = None) by reflexivity.
  split; [exact H1|]. split; [exact H2|].
  exact (proj1 (roundtrip_plain_decimal (mkIdentity 2 95 15 5 9505) "xls"
                  H1 H2)).
Defined.

(** The zero-padded name of the docstring and its unpadded form match
    the format and decode to the same five integers, so no encoder of the
    decoded fields gives every well-formed name back. *)
Lemma roundtrip_loses_zero_padding :
  ~ exists encode : TestIdentity -> string -> string,
      forall name id,
        matches_format name = true ->
        parse_eis_filename name = inr id ->
        encode id (extension name) = name.
Proof.
  intros [encode H].
  assert (H1 : encode (mkIdentity 2 95 15 5 9505) "xls" = padded_name)
    by (apply (H padded_name); vm_compute; reflexivity).
  assert (H2 : encode (mkIdentity 2 95 15 5 9505) "xls" = plain_name)
    by (apply (H plain_name); vm_compute; reflexivity).
  rewrite H1 in H2. discriminate H2.
Qed.

(** C6, as the code has it: the decoder raises exactly when the stem
    does not split into five fields or when one field, with every
    occurrence of its tag deleted, is not an integer literal; what it
    raises is a [ValueError], and what it returns has all five fields
    read from the five tokens. *)
Theorem parse_eis_filename_failure (name : string) :
  (raises (parse_eis_filename name) <->
   (List.length (Py.split "_" (stem name)) <> 5%nat
    \/ exists a b c d e,
         Py.split "_" (stem name) = [a; b; c; d; e]
         /\ (Py.int (Py.replace "Cell" "" a) = None
             \/ Py.int (Py.replace "SOH" "" b) = None
             \/ Py.int (Py.replace "degC" "" c) = None
             \/ Py.int (Py.replace "SOC" "" d) = None
             \/ Py.int e = None)))
  /\ (forall err, parse_eis_filename name = inl err ->
                  exists msg, err = ValueError msg)
  /\ (forall id, parse_eis_filename name = inr id ->
        exists a b c d e,
          Py.split "_" (stem name) = [a; b; c; d; e]
          /\ Py.int (Py.replace "Cell" "" a) = Some (cell_id id)
          /\ Py.int (Py.replace "SOH" "" b) = Some (soh_pct id)
          /\ Py.int (Py.replace "degC" "" c) = Some (temp_c id)
          /\ Py.int (Py.replace "SOC" "" d) = Some (soc_pct id)
          /\ Py.int e = Some (capacity_code id)).
Proof.
  unfold parse_eis_filename, raises.
  destruct (Py.split "_" (stem name)) as [|a [|b [|c [|d [|e [|x r]]]]]] eqn:Hs;
    cbn [List.length].
  1-5, 7:
    (split; [split; [intros _; left; lia|intros _; eexists; reflexivity]|];
     split; [intros err [= <-]; eexists; reflexivity|intros id H; discriminate H]).
  unfold int_or_raise.
  destruct (Py.int (Py.replace "Cell" "" a)) as [za|] eqn:Ha;
  destruct (Py.int (Py.replace "SOH" "" b)) as [zb|] eqn:Hb;
  destruct (Py.int (Py.replace "degC" "" c)) as [zc|] eqn:Hc;
  destruct (Py.int (Py.replace "SOC" "" d)) as [zd|] eqn:Hd;
  destruct (Py.int e) as [ze|] eqn:He; cbn [bind ret raise].
  2-32:
    (split; [split; [intros _; right; exists a, b, c, d, e;
                     split; [reflexivity|tauto]
                    |intros _; eexists; reflexivity]|];
     split; [intros err [= <-]; eexists; reflexivity
            |intros id H; discriminate H]).
  split; [split|split].
  - intros [err H]. discriminate H.
  - intros [H|[a' [b' [c' [d' [e' [[= <- <- <- <- <-] H]]]]]]]; [lia|].
    rewrite Ha, Hb, Hc, Hd, He in H.
    destruct H as [H|[H|[H|[H|H]]]]; discriminate H.
  - intros err H. discriminate H.
  - intros id [= <-]. exists a, b, c, d, e. cbn. repeat split; assumption.
Qed.

(** A name without any tag does not match the format, and is decoded. *)
Lemma parse_accepts_untagged_name :
  matches_format untagged_name = false
  /\ parse_eis_filename untagged_name = inr (mkIdentity 2 95 15 5 9505)
  /\ ~ raises (parse_eis_filename untagged_name).
Proof.
  split; [vm_compute; reflexivity|]. split; [vm_compute; reflexivity|].
  intros [err H]. vm_compute in H. discriminate H.
Qed.

End DecoderFacts.

(* ================================================================== *)
(** * Further properties *)

(* ------------------------------------------------------------------ *)
(** ** Spectrum loader: rows and columns *)

Section LoaderRows.
Context {L : Library}.

Lemma load_single_eis_sheet (n : nat) (rows : list (list cell)) :
  load_single_eis (mkSheet n rows)
  = if (n <? 3)%nat
    then inl (ValueError "Length mismatch: new values have 3 elements")
    else inr (map coerce_row (filter row_numeric (map first3 rows))).
Proof.
  destruct (Nat.ltb_spec n 3) as [Hlt|Hge].
  - unfold load_single_eis, first_three_columns. cbn [ncols].
    destruct (Nat.ltb_spec n 3) as [_|Hge]; [reflexivity|lia].
  - now rewrite load_single_eis_rows by exact Hge.
Qed.

Lemma first3_firstn (r : list cell) : first3 (firstn 3 r) = first3 r.
Proof.
  destruct r as [|c0 [|c1 [|c2 r]]]; reflexivity.
Qed.

(** X2: only the first three cells of a row are read.  Cutting every row
    after its third cell, or changing what comes after it, leaves the
    result of the loader unchanged. *)
Theorem load_single_eis_first_three_cells (s : Sheet)
  (rows' : list (list cell)) :
  map (firstn 3) rows' = map (firstn 3) (body s) ->
  load_single_eis (mkSheet (ncols s) rows') = load_single_eis s.
Proof.
  intros H. destruct s as [n rows]. cbn [ncols body] in *.
  rewrite !load_single_eis_sheet.
  destruct (n <? 3)%nat; [reflexivity|]. do 3 f_equal.
  rewrite <- (map_ext _ _ first3_firstn rows').
  rewrite <- (map_ext _ _ first3_firstn rows).
  rewrite <- !(map_map (firstn 3) first3). now rewrite H.
Qed.

End LoaderRows.

Lemma load_single_eis_first_three_cells_witness :
  map (firstn 3) [[Number 1; Number 2; Number 3]]%float
  = map (firstn 3)
      (body (mkSheet 4 [[Number 1; Number 2; Number 3; Text "note"]]))%float
  /\ load_single_eis (L := plain_library)
       (mkSheet 4 [[Number 1; Number 2; Number 3]])%float
     = load_single_eis (L := plain_library)
         (mkSheet 4 [[Number 1; Number 2; Number 3; Text "note"]])%float.
Proof.
  assert (H : map (firstn 3) [[Number 1; Number 2; Number 3]]%float
              = map (firstn 3)
                  (body (mkSheet 4 [[Number 1; Number 2; Number 3;
                                     Text "note"]]))%float)
    by reflexivity.
  split; [exact H|].
  exact (load_single_eis_first_three_cells (L := plain_library)
           (mkSheet 4 [[Number 1; Number 2; Number 3; Text "note"]])%float
           _ H).
Defined.

(* ------------------------------------------------------------------ *)
(** ** Corpus assembler *)

Section AssemblerFacts.
Context {L : Library}.

Lemma load_records_ok (index : list (TestIdentity * Sheet)) :
  Forall (fun e => (3 <= ncols (snd e))%nat) index ->
  load_records index = inr (map tagged_rows index).
Proof.
  induction 1 as [|[meta sheet] rest Hs Hrest IH]; [reflexivity|].
  cbn [load_records snd] in *.
  rewrite (load_single_eis_rows sheet Hs), IH. reflexivity.
Qed.

Lemma load_records_narrow (index : list (TestIdentity * Sheet)) :
  Exists (fun e => (ncols (snd e) < 3)%nat) index ->
  load_records index
  = inl (ValueError "Length mismatch: new values have 3 elements").
Proof.
  induction index as [|[meta sheet] rest IH]; intros Hex.
  - inversion Hex.
  - cbn [load_records].
    destruct (Nat.lt_ge_cases (ncols sheet) 3) as [Hlt|Hge].
    + destruct sheet as [n rows]. rewrite load_single_eis_sheet.
      cbn [ncols] in Hlt. apply Nat.ltb_lt in Hlt. now rewrite Hlt.
    + rewrite (load_single_eis_rows sheet Hge). cbn [bind].
      rewrite IH; [reflexivity|].
      inversion Hex as [? ? Hhere|? ? Hlater]; subst; [|exact Hlater].
      cbn [snd] in Hhere. lia.
Qed.

Lemma narrow_or_not (index : list (TestIdentity * Sheet)) :
  Exists (fun e => (ncols (snd e) < 3)%nat) index
  \/ Forall (fun e => (3 <= ncols (snd e))%nat) index.
Proof.
  induction index as [|e rest [IH|IH]].
  - right. constructor.
  - left. now apply Exists_cons_tl.
  - destruct (Nat.lt_ge_cases (ncols (snd e)) 3) as [Hlt|Hge].
    + left. now apply Exists_cons_hd.
    + right. now constructor.
Qed.

(** X3: the assembler is all or nothing.  It raises exactly when the
    index is empty or one of the sheets has fewer than three columns, a
    single such sheet being enough whatever the others hold, and what it
    raises is a [ValueError]. *)
Theorem load_all_eis_raises_iff (index : list (TestIdentity * Sheet)) :
  (raises (load_all_eis index) <->
   index = [] \/ Exists (fun e => (ncols (snd e) < 3)%nat) index)
  /\ forall err, load_all_eis index = inl err -> exists msg, err = ValueError msg.
Proof.
  unfold load_all_eis, raises.
  destruct (narrow_or_not index) as [Hex|Hall].
  - rewrite (load_records_narrow index Hex). cbn [bind]. split.
    + split; [intros _; now right|intros _; eexists; reflexivity].
    + intros err [= <-]. eexists. reflexivity.
  - rewrite (load_records_ok index Hall). cbn [bind].
    destruct index as [|e rest]; cbn [map].
    + split.
      * split; [intros _; now left|intros _; eexists; reflexivity].
      * intros err [= <-]. eexists. reflexivity.
    + split.
      * split; [intros [err H]; discriminate H|].
        intros [H|H]; [discriminate H|]. exfalso.
        apply Exists_exists in H. destruct H as [x [Hx Hlt]].
        rewrite Forall_forall in Hall. specialize (Hall x Hx). lia.
      * intros err H. discriminate H.
Qed.

Lemma load_all_eis_flat (index : list (TestIdentity * Sheet))
  (df : list LongRow) :
  load_all_eis index = inr df -> df = flat_map tagged_rows index.
Proof.
  intros Hload. unfold load_all_eis in Hload.
  destruct (narrow_or_not index) as [Hex|Hall].
  - rewrite (load_records_narrow index Hex) in Hload. discriminate Hload.
  - rewrite (load_records_ok index Hall) in Hload. cbn [bind] in Hload.
    destruct index as [|e rest]; [discriminate Hload|].
    injection Hload as <-. now rewrite flat_map_concat_map.
Qed.

Lemma In_tagged_rows (index : list (TestIdentity * Sheet)) (r : LongRow) :
  In r (flat_map tagged_rows index) <->
  exists e, In e index /\ identity r = fst e
            /\ In (point r) (valid_rows (snd e)).
Proof.
  rewrite in_flat_map. split.
  - intros [e [He Hr]]. exists e. split; [exact He|].
    unfold tagged_rows in Hr. apply in_map_iff in Hr.
    destruct Hr as [p [<- Hp]]. cbn. auto.
  - intros [e [He [Hid Hp]]]. exists e. split; [exact He|].
    unfold tagged_rows. apply in_map_iff. exists (point r).
    split; [|exact Hp]. destruct r as [i q]. cbn in *. now subst.
Qed.

(** X4: when the assembler returns, the long-format table is made of the
    valid rows of each sheet, each tagged with the identity of its index
    entry, sheet after sheet in the order of the index and row after row
    in the order of the sheet; a sheet without valid row contributes
    nothing. *)
Theorem load_all_eis_rows (index : list (TestIdentity * Sheet))
  (df : list LongRow) :
  load_all_eis index = inr df ->
  df = flat_map tagged_rows index
  /\ List.length df
     = list_sum (map (fun e => List.length (valid_rows (snd e))) index)
  /\ (forall r, In r df <->
        exists e, In e index /\ identity r = fst e
                  /\ In (point r) (valid_rows (snd e))).
Proof.
  intros Hload. pose proof (load_all_eis_flat index df Hload) as Hdf.
  split; [exact Hdf|]. subst df. split.
  - clear Hload. induction index as [|e rest IH]; [reflexivity|].
    cbn [flat_map map list_sum]. rewrite length_app, IH.
    unfold tagged_rows. now rewrite length_map.
  - apply In_tagged_rows.
Qed.


End AssemblerFacts.

Lemma load_all_eis_rows_witness :
  load_all_eis (L := plain_library)
    [(mkIdentity 1 100 25 50 1000, sheet_with_inner_header);
     (mkIdentity 2 95 15 5 9505, sheet_header_only)]
  = inr [ mkLongRow (mkIdentity 1 100 25 50 1000) (mkRow3 1000 0.5 (-0.25));
          mkLongRow (mkIdentity 1 100 25 50 1000) (mkRow3 10 0.75 (-0.5)) ]%float
  /\ List.length
       [ mkLongRow (mkIdentity 1 100 25 50 1000) (mkRow3 1000 0.5 (-0.25));
         mkLongRow (mkIdentity 1 100 25 50 1000) (mkRow3 10 0.75 (-0.5)) ]%float
     = list_sum
         (map (fun e => List.length (valid_rows (L := plain_library) (snd e)))
            [(mkIdentity 1 100 25 50 1000, sheet_with_inner_header);
             (mkIdentity 2 95 15 5 9505, sheet_header_only)]).
Proof.
  assert (H : load_all_eis (L := plain_library)
                [(mkIdentity 1 100 25 50 1000, sheet_with_inner_header);
                 (mkIdentity 2 95 15 5 9505, sheet_header_only)]
              = inr [ mkLongRow (mkIdentity 1 100 25 50 1000)
                        (mkRow3 1000 0.5 (-0.25));
                      mkLongRow (mkIdentity 1 100 25 50 1000)
                        (mkRow3 10 0.75 (-0.5)) ]%float)
    by reflexivity.
  split; [exact H|].
  exact (proj1 (proj2 (load_all_eis_rows (L := plain_library) _ _ H))).
Defined.


(* ------------------------------------------------------------------ *)
(** ** Feature extractor: resistances, order of the rows, small groups *)

Section ArgMax.
Import FloatFacts.

Lemma argmax_go_first_max l : forall i mp mi,
  is_nan mp = false ->
  Forall (fun x => is_nan x = false) l ->
  (argmax_go l i mp mi = mi /\ Forall (fun x => (x <=? mp)%float = true) l)
  \/ exists k m,
       argmax_go l i mp mi = (i + k)%nat
       /\ nth_error l k = Some m
       /\ (mp <? m)%float = true
       /\ Forall (fun x => (x <=? m)%float = true) l
       /\ forall j x, (j < k)%nat -> nth_error l j = Some x ->
                      (x <? m)%float = true.
Proof.
  induction l as [|x r IH]; intros i mp mi Hmp Hl; cbn [argmax_go].
  - left. split; [reflexivity|constructor].
  - inversion Hl as [|? ? Hx Hr]; subst.
    destruct (x <=? mp)%float eqn:Hle; cbn [negb].
    + destruct (IH (S i) mp mi Hmp Hr)
        as [[-> Hall]|[k [m [-> [Hk [Hlt [Hall Hfirst]]]]]]].
      * left. split; [reflexivity|]. constructor; assumption.
      * right. exists (S k), m. repeat split.
        -- lia.
        -- exact Hk.
        -- exact Hlt.
        -- constructor; [|exact Hall].
           apply ltb_leb. destruct (ltb_not_nan _ _ Hlt) as [_ Hm].
           rewrite ltb_negb_leb by assumption.
           destruct (m <=? x)%float eqn:Hmx; [|reflexivity].
           pose proof (leb_trans _ _ _ Hmx Hle) as Hmmp.
           rewrite ltb_negb_leb in Hlt by assumption.
           rewrite Hmmp in Hlt. discriminate Hlt.
        -- intros [|j] y Hj Hy; cbn [nth_error] in Hy.
           ++ injection Hy as <-. destruct (ltb_not_nan _ _ Hlt) as [_ Hm].
              rewrite ltb_negb_leb by assumption.
              destruct (m <=? x)%float eqn:Hmx; [|reflexivity].
              pose proof (leb_trans _ _ _ Hmx Hle) as Hmmp.
              rewrite ltb_negb_leb in Hlt by assumption.
              rewrite Hmmp in Hlt. discriminate Hlt.
           ++ eapply Hfirst; [|exact Hy]. lia.
    + rewrite Hx. pose proof (leb_total _ _ Hx Hmp Hle) as Hmpx.
      destruct (IH (S i) x i Hx Hr)
        as [[-> Hall]|[k [m [-> [Hk [Hlt [Hall Hfirst]]]]]]].
      * right. exists O, x. repeat split.
        -- lia.
        -- exact Hmpx.
        -- constructor; [now apply leb_refl|exact Hall].
        -- intros j y Hj. lia.
      * right. exists (S k), m. repeat split.
        -- lia.
        -- exact Hk.
        -- eapply ltb_leb_trans; [exact Hmpx|]. now apply ltb_leb.
        -- constructor; [now apply ltb_leb|exact Hall].
        -- intros [|j] y Hj Hy; cbn [nth_error] in Hy.
           ++ injection Hy as <-. exact Hlt.
           ++ eapply Hfirst; [|exact Hy]. lia.
Qed.

(** [np.argmax] on an array of numbers: the first position of the
    greatest value. *)
Lemma argmax_first_max a :
  a <> [] ->
  Forall (fun x => is_nan x = false) a ->
  exists i m,
    argmax a = inr i
    /\ nth_error a i = Some m
    /\ Forall (fun x => (x <=? m)%float = true) a
    /\ forall j x, (j < i)%nat -> nth_error a j = Some x ->
                   (x <? m)%float = true.
Proof.
  destruct a as [|x r]; [congruence|]. intros _ Ha.
  inversion Ha as [|? ? Hx Hr]; subst.
  cbn [argmax]. rewrite Hx.
  destruct (argmax_go_first_max r 1 x 0 Hx Hr)
    as [[-> Hall]|[k [m [-> [Hk [Hlt [Hall Hfirst]]]]]]].
  - exists O, x. repeat split.
    + constructor; [now apply leb_refl|exact Hall].
    + intros j y Hj. lia.
  - exists (S k), m. repeat split.
    + exact Hk.
    + constructor; [now apply ltb_leb|exact Hall].
    + intros [|j] y Hj Hy; cbn [nth_error] in Hy.
      * injection Hy as <-. exact Hlt.
      * eapply Hfirst; [|exact Hy]. lia.
Qed.

End ArgMax.

Section ExtractorFacts.
Context {L : Library}.
Import FloatFacts.

(** The run of the extractor with the two indices it looks up. *)
Lemma compute_impedance_features_run (group : list SpectrumPoint) :
  group <> [] ->
  let g := sort_values group in
  let freq := map frequency_hz g in
  let z_real := map z_real_ohm g in
  let z_cplx := map (fun p => z_complex (z_real_ohm p) (z_imag_ohm p)) g in
  let mag := map np_abs z_cplx in
  let phase := map np_angle z_cplx in
  exists ihf ilf,
    argmax freq = inr ihf /\ argmin freq = inr ilf
    /\ compute_impedance_features group
       = inr (sampled_with (fun t => nth (nearest freq t) mag nan)
                (fun t => nth (nearest freq t) phase nan) f_targets
                [ ("R_hf_ohm", nth ihf z_real nan);
                  ("R_lf_ohm", nth ilf z_real nan);
                  ("delta_R_ohm", (nth ilf z_real nan - nth ihf z_real nan)%float);
                  ("Zmag_mean", np_mean mag);
                  ("Zmag_std", np_std mag);
                  ("Zmag_min", np_min mag);
                  ("Zmag_max", np_max mag);
                  ("phase_mean", np_mean phase);
                  ("phase_std", np_std phase) ]).
Proof.
  intros Hne g freq z_real z_cplx mag phase.
  assert (Hg : g <> []) by now apply sort_values_nonempty.
  assert (Hf : freq <> []).
  { unfold freq. destruct g; [congruence|discriminate]. }
  destruct (argmax_in_range freq Hf) as [ihf [Hhf Hhf_lt]].
  destruct (argmin_in_range freq Hf) as [ilf [Hlf Hlf_lt]].
  unfold freq in Hhf_lt, Hlf_lt. rewrite length_map in Hhf_lt, Hlf_lt.
  exists ihf, ilf. split; [exact Hhf|]. split; [exact Hlf|].
  unfold compute_impedance_features. fold g. fold freq.
  rewrite Hhf, Hlf. cbn [bind]. fold z_real.
  rewrite !item_nth by (unfold z_real; rewrite length_map; assumption).
  cbn [bind]. fold z_cplx. fold mag. fold phase.
  apply sample_targets_total; [exact Hf| |];
    unfold mag, phase, z_cplx, freq; now rewrite !length_map.
Qed.

Lemma getitem_sampled_with_summary vm vp features k :
  In k summary_keys ->
  getitem k (sampled_with vm vp f_targets features) = getitem k features.
Proof.
  intros H. unfold sampled_with. cbn [f_targets fold_left].
  cbn [summary_keys In] in H.
  repeat (destruct H as [<-|H]); try contradiction;
    rewrite !getitem_setitem; vm_compute; reflexivity.
Qed.

(** X6: the extractor raises exactly on a group without points, and what
    it raises then is the [ValueError] of [np.argmax]. *)
Theorem compute_impedance_features_raises_iff (group : list SpectrumPoint) :
  (raises (compute_impedance_features group) <-> group = [])
  /\ forall err, compute_impedance_features group = inl err ->
                 err = ValueError "attempt to get argmax of an empty sequence".
Proof.
  destruct group as [|p r].
  - rewrite compute_impedance_features_empty. split.
    + split; [reflexivity|intros _; eexists; reflexivity].
    + intros err [= <-]. reflexivity.
  - destruct (compute_impedance_features_returns (p :: r)) as [feats [Hf _]];
      [discriminate|].
    rewrite Hf. split.
    + split; [intros [err H]; discriminate H|discriminate].
    + intros err H. discriminate H.
Qed.

(** X7: on a non-empty group whose frequencies are numbers, [R_hf_ohm]
    is the real part of a point of the greatest frequency of the group,
    [R_lf_ohm] the real part of a point of the least frequency, and
    [delta_R_ohm] is the float difference of the second and the first. *)
Theorem compute_impedance_features_resistances (group : list SpectrumPoint) :
  group <> [] ->
  Forall (fun p => is_nan (frequency_hz p) = false) group ->
  exists feats p_hf p_lf,
    compute_impedance_features group = inr feats
    /\ In p_hf group /\ In p_lf group
    /\ (forall q, In q group ->
          (frequency_hz q <=? frequency_hz p_hf)%float = true
          /\ (frequency_hz p_lf <=? frequency_hz q)%float = true)
    /\ getitem "R_hf_ohm" feats = Some (z_real_ohm p_hf)
    /\ getitem "R_lf_ohm" feats = Some (z_real_ohm p_lf)
    /\ getitem "delta_R_ohm" feats
       = Some (z_real_ohm p_lf - z_real_ohm p_hf)%float.
Proof.
  intros Hne Hnum.
  destruct (compute_impedance_features_run group Hne)
    as [ihf [ilf [Hhf [Hlf H]]]].
  cbv zeta in H.
  set (g := sort_values group) in *.
  assert (Hperm : Permutation g group) by apply sort_values_perm.
  assert (Hg : Forall (fun x => is_nan x = false) (map frequency_hz g)).
  { rewrite Forall_map, Forall_forall in *. intros p Hp. apply Hnum.
    eapply Permutation_in; [exact Hperm|exact Hp]. }
  assert (Hfne : map frequency_hz g <> []).
  { pose proof (sort_values_nonempty group Hne) as Hg'. fold g in Hg'.
    destruct g; [congruence|discriminate]. }
  destruct (argmax_first_max _ Hfne Hg) as [i [m [Hi [Hm [Hmax _]]]]].
  destruct (argmin_first_min _ Hfne Hg) as [j [m' [Hj [Hm' [Hmin _]]]]].
  rewrite Hhf in Hi. injection Hi as <-.
  rewrite Hlf in Hj. injection Hj as <-.
  apply nth_error_map_inv in Hm. destruct Hm as [p_hf [Hp_hf ->]].
  apply nth_error_map_inv in Hm'. destruct Hm' as [p_lf [Hp_lf ->]].
  assert (Hr_hf : nth ihf (map z_real_ohm g) nan = z_real_ohm p_hf).
  { apply nth_error_nth. exact (map_nth_error z_real_ohm ihf g Hp_hf). }
  assert (Hr_lf : nth ilf (map z_real_ohm g) nan = z_real_ohm p_lf).
  { apply nth_error_nth. exact (map_nth_error z_real_ohm ilf g Hp_lf). }
  rewrite Hr_hf, Hr_lf in H.
  eexists _, p_hf, p_lf. split; [exact H|].
  split; [eapply Permutation_in; [exact Hperm|eapply nth_error_In; exact Hp_hf]|].
  split; [eapply Permutation_in; [exact Hperm|eapply nth_error_In; exact Hp_lf]|].
  split.
  - intros q Hq.
    assert (Hq' : In (frequency_hz q) (map frequency_hz g)).
    { apply in_map. eapply Permutation_in; [symmetry; exact Hperm|exact Hq]. }
    rewrite Forall_forall in Hmax, Hmin. split; [now apply Hmax|now apply Hmin].
  - rewrite !getitem_sampled_with_summary
      by (cbn [summary_keys In]; tauto).
    repeat split; reflexivity.
Qed.

Lemma nearest_single (f : float) (t : literal) : nearest [f] t = O.
Proof.
  unfold nearest. cbn [map argmin argmin_go].
  destruct (is_nan (distance (lit_value t) f)); reflexivity.
Qed.

(** X8: a group of a single point gives that point everywhere: both
    resistances are its real part, and for each of the seven targets the
    magnitude and the phase stored are those of the point, whatever its
    frequency. *)
Theorem compute_impedance_features_single_point (p : SpectrumPoint)
  (t : literal) :
  In t f_targets ->
  exists feats,
    compute_impedance_features [p] = inr feats
    /\ getitem "R_hf_ohm" feats = Some (z_real_ohm p)
    /\ getitem "R_lf_ohm" feats = Some (z_real_ohm p)
    /\ getitem (Zmag_key t) feats
       = Some (np_abs (z_complex (z_real_ohm p) (z_imag_ohm p)))
    /\ getitem (phase_key t) feats
       = Some (np_angle (z_complex (z_real_ohm p) (z_imag_ohm p))).
Proof.
  intros Ht.
  destruct (compute_impedance_features_run [p]) as [ihf [ilf [Hhf [Hlf H]]]];
    [discriminate|].
  cbv zeta in H. rewrite sort_values_single in *. cbn [map] in *.
  assert (Hihf : ihf = O).
  { cbn [argmax argmax_go] in Hhf.
    destruct (is_nan (frequency_hz p)); now injection Hhf. }
  assert (Hilf : ilf = O).
  { cbn [argmin argmin_go] in Hlf.
    destruct (is_nan (frequency_hz p)); now injection Hlf. }
  subst ihf ilf. cbn [nth] in H.
  eexists. split; [exact H|].
  rewrite !getitem_sampled_with_summary by (cbn [summary_keys In]; tauto).
  split; [reflexivity|]. split; [reflexivity|].
  match goal with
  | |- context [sampled_with ?vm ?vp f_targets ?d] =>
      destruct (getitem_sampled_with vm vp d t Ht) as [Hm Hp]
  end.
  rewrite Hm, Hp, nearest_single. split; reflexivity.
Qed.

End ExtractorFacts.

(** Among rows of equal frequency the row that is read is the one the
    sort of the library puts first: with the rows of each frequency kept
    in their order of arrival [R_hf_ohm] and [R_lf_ohm] are 1 and 3, with
    that order reversed they are 2 and 4. *)
Example equal_frequencies_follow_the_sort :
  (exists feats,
     compute_impedance_features (L := plain_library) rows_of_equal_frequency
     = inr feats
     /\ map z_real_ohm (@sort_values plain_library rows_of_equal_frequency)
        = [3; 4; 1; 2]%float
     /\ getitem "R_hf_ohm" feats = Some 1%float
     /\ getitem "R_lf_ohm" feats = Some 3%float
     /\ getitem "delta_R_ohm" feats = Some 2%float)
  /\ (exists feats,
        compute_impedance_features (L := reversing_library)
          rows_of_equal_frequency = inr feats
        /\ map z_real_ohm
             (@sort_values reversing_library rows_of_equal_frequency)
           = [4; 3; 2; 1]%float
        /\ getitem "R_hf_ohm" feats = Some 2%float
        /\ getitem "R_lf_ohm" feats = Some 4%float
        /\ getitem "delta_R_ohm" feats = Some 2%float).
Proof.
  split; eexists; (split; [vm_compute; reflexivity|]);
    repeat split; reflexivity.
Qed.

(* ------------------------------------------------------------------ *)
(** ** Order of the rows *)

Section SortedUnique.
Context {A : Type} (lt : A -> A -> Prop).
Hypothesis lt_irrefl : forall x, ~ lt x x.
Hypothesis lt_trans : forall x y z, lt x y -> lt y z -> lt x z.

(** Two strictly ascending lists with the same elements are equal. *)
Lemma strictly_sorted_unique (l l' : list A) :
  StronglySorted lt l -> StronglySorted lt l' ->
  (forall x, In x l <-> In x l') -> l = l'.
Proof.
  intros Hl. revert l'.
  induction Hl as [|a t Ht IH Ha]; intros l' Hl' Hin.
  - destruct l' as [|b t']; [reflexivity|].
    exfalso. apply (proj2 (Hin b)). now left.
  - destruct Hl' as [|b t' Ht' Hb].
    + exfalso. apply (proj1 (Hin a)). now left.
    + rewrite Forall_forall in Ha, Hb.
      assert (Hab : a = b).
      { destruct (proj1 (Hin a) (or_introl eq_refl)) as [Heq|Hat'];
          [now symmetry|].
        destruct (proj2 (Hin b) (or_introl eq_refl)) as [Heq|Hbt];
          [exact Heq|].
        exfalso. apply (lt_irrefl a). eapply lt_trans; [apply Ha|apply Hb];
          assumption. }
      subst b. f_equal. apply IH; [exact Ht'|]. intros x. split.
      * intros Hx. destruct (proj1 (Hin x) (or_intror Hx)) as [<-|Hx'];
          [|exact Hx'].
        exfalso. apply (lt_irrefl a). now apply Ha.
      * intros Hx. destruct (proj2 (Hin x) (or_intror Hx)) as [<-|Hx'];
          [|exact Hx'].
        exfalso. apply (lt_irrefl a). now apply Hb.
Qed.

End SortedUnique.

Section RowOrder.
Context {L : Library}.
Import FloatFacts.

Lemma freq_lt_irrefl (p : SpectrumPoint) : ~ freq_lt p p.
Proof.
  unfold freq_lt. intros H. destruct (ltb_not_nan _ _ H) as [Hp _].
  rewrite ltb_negb_leb, leb_refl in H by assumption. discriminate H.
Qed.

Lemma freq_lt_trans (p q r : SpectrumPoint) :
  freq_lt p q -> freq_lt q r -> freq_lt p r.
Proof.
  unfold freq_lt. intros Hpq Hqr.
  eapply ltb_leb_trans; [exact Hpq|now apply ltb_leb].
Qed.

Lemma apart_sym (p q : SpectrumPoint) : apart p q -> apart q p.
Proof. unfold apart. now rewrite orb_comm. Qed.

Lemma apart_irrefl (p : SpectrumPoint) : ~ apart p p.
Proof.
  unfold apart. rewrite orb_diag. apply freq_lt_irrefl.
Qed.

Lemma FOP_perm {A} (R : A -> A -> Prop) (l l' : list A) :
  (forall x y, R x y -> R y x) ->
  Permutation l l' -> ForallOrdPairs R l -> ForallOrdPairs R l'.
Proof.
  intros Hsym. induction 1 as [|x l l' Hp IH|x y l|l l' l'' H1 IH1 H2 IH2];
    intros H.
  - exact H.
  - inversion H as [|? ? Hx Hl]; subst. constructor; [|now apply IH].
    eapply Permutation_Forall; eassumption.
  - inversion H as [|? ? Hy Hxl]; subst.
    inversion Hxl as [|? ? Hx Hl]; subst.
    inversion Hy as [|? ? Hyx Hyl]; subst.
    constructor; [constructor; [now apply Hsym|exact Hx]|].
    constructor; assumption.
  - auto.
Qed.

Lemma FOP_apart_distinct (g : list SpectrumPoint) :
  ForallOrdPairs apart g -> distinct_frequencies g.
Proof.
  intros H. split.
  - induction H as [|p l Hp Hl IH]; constructor; [|exact IH].
    intros Hin. rewrite Forall_forall in Hp.
    exact (apart_irrefl p (Hp p Hin)).
  - intros p q Hp Hq Hne.
    destruct (ForallOrdPairs_In H p q Hp Hq) as [Heq|[Hpq|Hqp]];
      [contradiction|exact Hpq|now apply apart_sym].
Qed.

Lemma distinct_frequencies_perm (g g' : list SpectrumPoint) :
  Permutation g g' -> distinct_frequencies g -> distinct_frequencies g'.
Proof.
  intros Hperm [Hnd Hap]. split; [eapply Permutation_NoDup; eassumption|].
  intros p q Hp Hq. apply Hap; eapply Permutation_in;
    try (symmetry; exact Hperm); assumption.
Qed.

(** Rows in ascending order whose frequencies all differ are in strictly
    ascending order. *)
Lemma sorted_distinct_strict (l : list SpectrumPoint) :
  Sorted freq_order l -> distinct_frequencies l -> StronglySorted freq_lt l.
Proof.
  intros Hs [Hnd Hap].
  apply Sorted_StronglySorted; [intros p q r; apply freq_lt_trans|].
  revert Hnd Hap. induction Hs as [|a t Ht IH Hhd]; intros Hnd Hap;
    [constructor|].
  inversion Hnd as [|? ? Hnotin Hnd']; subst.
  constructor.
  - apply IH; [exact Hnd'|]. intros p q Hp Hq. apply Hap; now right.
  - inversion Hhd as [|b t' Hab]; subst; constructor.
    assert (Hapart : apart a b).
    { apply Hap; [now left|right; now left|].
      intros ->. apply Hnotin. now left. }
    unfold apart in Hapart. apply orb_true_iff in Hapart.
    destruct Hapart as [H|H]; [exact H|]. exfalso.
    unfold freq_order, freq_le in Hab.
    destruct (ltb_not_nan _ _ H) as [Hb Ha].
    rewrite Hb, Ha in Hab.
    rewrite ltb_negb_leb, Hab in H by assumption. discriminate H.
Qed.

(** Whatever the library does with rows of equal frequency, a group
    without such rows has one sorted form. *)
Lemma sort_values_strict (group : list SpectrumPoint) :
  distinct_frequencies group -> StronglySorted freq_lt (sort_values group).
Proof.
  intros Hd. apply sorted_distinct_strict; [apply sort_values_sorted|].
  eapply distinct_frequencies_perm; [|exact Hd].
  symmetry. apply sort_values_perm.
Qed.

Lemma sort_values_order_free (g g' : list SpectrumPoint) :
  distinct_frequencies g -> Permutation g g' ->
  sort_values g' = sort_values g.
Proof.
  intros Hd Hperm.
  apply (strictly_sorted_unique freq_lt freq_lt_irrefl freq_lt_trans).
  - apply sort_values_strict. eapply distinct_frequencies_perm; eassumption.
  - now apply sort_values_strict.
  - intros x. split; intros Hx.
    + apply (Permutation_in _ (sort_values_perm g')) in Hx.
      apply (Permutation_in _ (Permutation_sym (sort_values_perm g))).
      eapply Permutation_in; [symmetry; exact Hperm|exact Hx].
    + apply (Permutation_in _ (sort_values_perm g)) in Hx.
      apply (Permutation_in _ (Permutation_sym (sort_values_perm g'))).
      eapply Permutation_in; [exact Hperm|exact Hx].
Qed.

Lemma sort_values_order_free_compute (g g' : list SpectrumPoint) :
  distinct_frequencies g -> Permutation g g' ->
  compute_impedance_features g' = compute_impedance_features g.
Proof.
  intros Hd Hperm. unfold compute_impedance_features.
  now rewrite (sort_values_order_free g g' Hd Hperm).
Qed.

(** X9: the order in which the rows of a spectrum arrive does not
    matter when no two of them share a frequency: the extractor returns
    the same dictionary for every rearrangement of the group. *)
Theorem compute_impedance_features_order_free (g g' : list SpectrumPoint) :
  distinct_frequencies g -> Permutation g g' ->
  compute_impedance_features g' = compute_impedance_features g.
Proof.
  intros Hd Hperm.
  pose proof (sort_values_order_free g g' Hd Hperm) as Hsort.
  unfold compute_impedance_features. rewrite Hsort. reflexivity.
Qed.

(** The sorted form of a group without two rows of the same frequency:
    its rows in strictly ascending order. *)
Lemma sort_values_unique (g g' : list SpectrumPoint) :
  distinct_frequencies g -> Permutation g' g -> StronglySorted freq_lt g' ->
  sort_values g = g'.
Proof.
  intros Hd Hperm Hs.
  apply (strictly_sorted_unique freq_lt freq_lt_irrefl freq_lt_trans);
    [now apply sort_values_strict|exact Hs|].
  intros x. split; intros Hx.
  - eapply Permutation_in; [symmetry; exact Hperm|].
    eapply Permutation_in; [apply sort_values_perm|exact Hx].
  - eapply Permutation_in; [symmetry; apply sort_values_perm|].
    eapply Permutation_in; [exact Hperm|exact Hx].
Qed.

Lemma sort_values_sparse_spectrum (p1 p2 p3 : float * float) :
  sort_values (sparse_spectrum p1 p2 p3)
  = [ mkRow3 0.005 (fst p1) (snd p1);
      mkRow3 0.02 (fst p2) (snd p2);
      mkRow3 50000 (fst p3) (snd p3) ]%float.
Proof.
  apply sort_values_unique.
  - apply FOP_apart_distinct. repeat constructor.
  - symmetry. unfold sparse_spectrum.
    exact (Permutation_cons_append
             [ mkRow3 0.005 (fst p1) (snd p1);
               mkRow3 0.02 (fst p2) (snd p2) ]%float
             (mkRow3 50000 (fst p3) (snd p3))%float).
  - repeat constructor.
Qed.

Lemma sort_values_tied_spectrum (p1 p2 : float * float) :
  sort_values (tied_spectrum p1 p2)
  = [ mkRow3 0.5 (fst p1) (snd p1); mkRow3 1.5 (fst p2) (snd p2) ]%float.
Proof.
  apply sort_values_unique.
  - apply FOP_apart_distinct. repeat constructor.
  - apply perm_swap.
  - repeat constructor.
Qed.

End RowOrder.

(* ------------------------------------------------------------------ *)
(** ** Feature extractor: the point nearest to a target *)

Section NearestPoint.
Context {L : Library}.
Import FloatFacts.

(** C2: on a non-empty group whose frequencies are numbers, for each of
    the seven targets, the values stored under the Zmag and phase keys of
    the target are those of one point [p] of the group.  The absolute
    difference [|f - target|] of its frequency, computed in float64, is
    the least of the group.  The group being sorted by ascending
    frequency (whatever the order the sort leaves rows of equal frequency
    in), [p] is the first point of the sorted group at that least
    distance: every point sorted before it is strictly farther from the
    target; hence among the points at the least distance [p] has the
    lowest frequency.  For the frequencies 0.005, 0.02 and 50000, given in
    any impedances and out of order, the target 0.01 selects the point at
    0.005 and the target 10000 the point at 0.02; of the two points 0.5
    and 1.5, at the same distance of the target 1, the point at 0.5 is
    selected. *)
Theorem nearest_frequency_selection (group : list SpectrumPoint)
  (t : literal) :
  group <> [] ->
  Forall (fun p => is_nan (frequency_hz p) = false) group ->
  In t f_targets ->
  (exists feats i p,
    compute_impedance_features group = inr feats
    /\ Permutation (sort_values group) group
    /\ (forall j k q q', (j <= k)%nat ->
          nth_error (sort_values group) j = Some q ->
          nth_error (sort_values group) k = Some q' ->
          (frequency_hz q <=? frequency_hz q')%float = true)
    /\ nth_error (sort_values group) i = Some p
    /\ In p group
    /\ getitem ("Zmag_f" ++ Py.replace "." "p" (lit_str t)) feats
       = Some (np_abs (z_complex (z_real_ohm p) (z_imag_ohm p)))
    /\ getitem ("phase_f" ++ Py.replace "." "p" (lit_str t)) feats
       = Some (np_angle (z_complex (z_real_ohm p) (z_imag_ohm p)))
    /\ (forall q, In q group ->
          (abs (frequency_hz p - lit_value t)
           <=? abs (frequency_hz q - lit_value t))%float = true)
    /\ (forall j q, (j < i)%nat -> nth_error (sort_values group) j = Some q ->
          (abs (frequency_hz p - lit_value t)
           <? abs (frequency_hz q - lit_value t))%float = true)
    /\ (forall q, In q group ->
          (abs (frequency_hz q - lit_value t)
           <=? abs (frequency_hz p - lit_value t))%float = true ->
          (frequency_hz p <=? frequency_hz q)%float = true))
  /\ (forall p1 p2 p3, exists feats,
        compute_impedance_features (sparse_spectrum p1 p2 p3) = inr feats
        /\ getitem "Zmag_f0p01" feats
           = Some (np_abs (z_complex (fst p1) (snd p1)))
        /\ getitem "phase_f0p01" feats
           = Some (np_angle (z_complex (fst p1) (snd p1)))
        /\ getitem "Zmag_f10000p0" feats
           = Some (np_abs (z_complex (fst p2) (snd p2)))
        /\ getitem "phase_f10000p0" feats
           = Some (np_angle (z_complex (fst p2) (snd p2))))
  /\ (forall p1 p2, exists feats,
        compute_impedance_features (tied_spectrum p1 p2) = inr feats
        /\ getitem "Zmag_f1p0" feats
           = Some (np_abs (z_complex (fst p1) (snd p1)))
        /\ getitem "phase_f1p0" feats
           = Some (np_angle (z_complex (fst p1) (snd p1)))).
Proof.
  intros Hne Hnum Ht. split; [|split].
  2:{ intros [r1 i1] [r2 i2] [r3 i3]. unfold compute_impedance_features.
      rewrite sort_values_sparse_spectrum. eexists.
      split; [vm_compute; reflexivity|]. repeat split; reflexivity. }
  2:{ intros [r1 i1] [r2 i2]. unfold compute_impedance_features.
      rewrite sort_values_tied_spectrum. eexists.
      split; [vm_compute; reflexivity|]. repeat split; reflexivity. }
  destruct (compute_impedance_features_total group Hne) as [R_hf [R_lf H]].
  cbv zeta in H.
  pose proof (sort_values_perm group) as Hperm.
  pose proof (sort_values_ascending group) as Hasc.
  set (g := sort_values group) in *.
  set (freq := map frequency_hz g) in *.
  set (z_cplx := map (fun p => z_complex (z_real_ohm p) (z_imag_ohm p)) g) in *.
  assert (Hg : Forall (fun p => is_nan (frequency_hz p) = false) g).
  { rewrite Forall_forall in *. intros p Hp. apply Hnum.
    eapply Permutation_in; [exact Hperm|exact Hp]. }
  assert (Hfne : map (distance (lit_value t)) freq <> []).
  { pose proof (sort_values_nonempty group Hne) as Hg'. fold g in Hg'.
    unfold freq. destruct g; [congruence|discriminate]. }
  assert (Hnn : forall q, In q g ->
                  is_nan (abs (frequency_hz q - lit_value t)) = false).
  { intros q Hq. rewrite Forall_forall in Hg.
    apply abs_sub_not_nan; [now apply Hg|now apply f_targets_finite]. }
  assert (Hdist : Forall (fun x => is_nan x = false)
                    (map (distance (lit_value t)) freq)).
  { unfold freq. rewrite !Forall_map. rewrite Forall_forall.
    intros p Hp. now apply Hnn. }
  destruct (argmin_first_min _ Hfne Hdist) as [i [m [Hi [Hm [Hall Hfirst]]]]].
  assert (Hn : nearest freq t = i) by (unfold nearest; now rewrite Hi).
  unfold freq in Hm. rewrite map_map in Hm.
  apply nth_error_map_inv in Hm. destruct Hm as [p [Hp ->]].
  destruct (getitem_sampled_with
              (fun t => nth (nearest freq t) (map np_abs z_cplx) nan)
              (fun t => nth (nearest freq t) (map np_angle z_cplx) nan)
              [ ("R_hf_ohm", R_hf);
               ("R_lf_ohm", R_lf);
               ("delta_R_ohm", (R_lf - R_hf)%float);
               ("Zmag_mean", np_mean (map np_abs z_cplx));
               ("Zmag_std", np_std (map np_abs z_cplx));
               ("Zmag_min", np_min (map np_abs z_cplx));
               ("Zmag_max", np_max (map np_abs z_cplx));
               ("phase_mean", np_mean (map np_angle z_cplx));
               ("phase_std", np_std (map np_angle z_cplx)) ] t Ht)
    as [Hmag Hphase].
  cbv beta in Hmag, Hphase. rewrite Hn in Hmag, Hphase.
  assert (Hz : nth_error z_cplx i
               = Some (z_complex (z_real_ohm p) (z_imag_ohm p))).
  { unfold z_cplx. rewrite nth_error_map, Hp. reflexivity. }
  assert (Hleast : forall q, In q g ->
            (abs (frequency_hz p - lit_value t)
             <=? abs (frequency_hz q - lit_value t))%float = true).
  { intros q Hq. rewrite Forall_forall in Hall.
    apply (Hall (distance (lit_value t) (frequency_hz q))).
    unfold freq. rewrite map_map. apply in_map_iff. exists q. auto. }
  assert (Hbefore : forall j q, (j < i)%nat -> nth_error g j = Some q ->
            (abs (frequency_hz p - lit_value t)
             <? abs (frequency_hz q - lit_value t))%float = true).
  { intros j q Hj Hq.
    apply (Hfirst j (distance (lit_value t) (frequency_hz q)) Hj).
    unfold freq. rewrite map_map.
    exact (map_nth_error
             (fun x => distance (lit_value t) (frequency_hz x)) j g Hq). }
  assert (Hpg : In p g) by (eapply nth_error_In; exact Hp).
  eexists _, i, p. split; [exact H|].
  split; [exact Hperm|]. split; [intros j k q q'; now apply Hasc|].
  split; [exact Hp|].
  split; [eapply Permutation_in; [exact Hperm|exact Hpg]|].
  split; [|split; [|split; [|split]]].
  - change ("Zmag_f" ++ Py.replace "." "p" (lit_str t)) with (Zmag_key t).
    rewrite Hmag. f_equal. apply nth_error_nth.
    rewrite nth_error_map, Hz. reflexivity.
  - change ("phase_f" ++ Py.replace "." "p" (lit_str t)) with (phase_key t).
    rewrite Hphase. f_equal. apply nth_error_nth.
    rewrite nth_error_map, Hz. reflexivity.
  - intros q Hq. apply Hleast.
    eapply Permutation_in; [symmetry; exact Hperm|exact Hq].
  - exact Hbefore.
  - intros q Hq Hle.
    assert (Hqg : In q g)
      by (eapply Permutation_in; [symmetry; exact Hperm|exact Hq]).
    destruct (In_nth_error g q Hqg) as [j Hj].
    destruct (Nat.lt_ge_cases j i) as [Hlt|Hge].
    + pose proof (Hbefore j q Hlt Hj) as Hstrict.
      rewrite ltb_negb_leb, Hle in Hstrict by (now apply Hnn).
      discriminate Hstrict.
    + now apply (Hasc i j p q).
Qed.

End NearestPoint.

Lemma nearest_frequency_selection_witness :
  sparse_example <> []
  /\ Forall (fun p => is_nan (frequency_hz p) = false) sparse_example
  /\ In target_0p01 f_targets
  /\ exists feats,
       compute_impedance_features (L := plain_library) sparse_example
       = inr feats
       /\ getitem "Zmag_f0p01" feats
          = Some (@np_abs plain_library (z_complex 3 (-1))%float)
       /\ getitem "Zmag_f10000p0" feats
          = Some (@np_abs plain_library (z_complex 2 (-0.5))%float).
Proof.
  assert (H1 : sparse_example <> []) by discriminate.
  assert (H2 : Forall (fun p => is_nan (frequency_hz p) = false)
                 sparse_example)
    by (repeat constructor).
  assert (H3 : In target_0p01 f_targets) by (left; reflexivity).
  split; [exact H1|]. split; [exact H2|]. split; [exact H3|].
  destruct (proj1 (proj2 (nearest_frequency_selection (L := plain_library)
                            sparse_example target_0p01 H1 H2 H3))
              (3, -1)%float (2, -0.5)%float (1, -0.25)%float)
    as [feats [Hf [Hmag [_ [Hmag' _]]]]].
  exists feats. split; [exact Hf|]. split; [exact Hmag|exact Hmag'].
Defined.

(* ------------------------------------------------------------------ *)
(** ** Feature table builder: records, order, rearrangements *)

Section TableFacts.
Context {L : Library}.
Import FloatFacts.

Lemma key_lt_irrefl (k : group_key) : ~ key_lt k k.
Proof. unfold key_lt. rewrite key_ltb_irrefl. discriminate. Qed.

Lemma group_keys_perm (df df' : list LongRow) :
  Permutation df df' -> group_keys df' = group_keys df.
Proof.
  intros Hperm.
  apply (strictly_sorted_unique key_lt key_lt_irrefl key_ltb_trans);
    try apply group_keys_spec.
  intros k. rewrite !(proj2 (group_keys_spec _)). split.
  - intros [r [Hr Hk]]. exists r. split; [|exact Hk].
    eapply Permutation_in; [symmetry; exact Hperm|exact Hr].
  - intros [r [Hr Hk]]. exists r. split; [|exact Hk].
    eapply Permutation_in; [exact Hperm|exact Hr].
Qed.

(** X10: the records of the feature table come in strictly ascending
    order of their key, compared field by field, and the sequence of
    keys is the same for every rearrangement of the rows of the
    long-format table. *)
Theorem build_keys_ascending (df : list LongRow) :
  exists recs ks,
    build_impedance_feature_table df = inr (DataFrame_of_records recs)
    /\ map record_key recs = map stored_key ks
    /\ StronglySorted key_lt ks
    /\ forall df', Permutation df df' ->
         exists recs',
           build_impedance_feature_table df'
           = inr (DataFrame_of_records recs')
           /\ map record_key recs' = map record_key recs.
Proof.
  destruct (build_impedance_feature_table_total df) as [recs [Hb [_ Hkeys]]].
  exists recs, (group_keys df). split; [exact Hb|]. split; [exact Hkeys|].
  split; [apply group_keys_spec|]. intros df' Hperm.
  destruct (build_impedance_feature_table_total df')
    as [recs' [Hb' [_ Hkeys']]].
  exists recs'. split; [exact Hb'|].
  now rewrite Hkeys', Hkeys, (group_keys_perm df df' Hperm).
Qed.











Lemma rows_of_apart (k : group_key) (df : list LongRow) :
  one_row_per_frequency df ->
  ForallOrdPairs apart (map point (rows_of k df)).
Proof.
  unfold one_row_per_frequency, rows_of.
  induction 1 as [|a l Ha Hl IH]; cbn [filter map]; [constructor|].
  destruct (key_eqb (key_of a) k) eqn:Hk; [|exact IH].
  cbn [map]. constructor; [|exact IH].
  apply Forall_map, Forall_forall. intros x Hx.
  apply filter_In in Hx. destruct Hx as [Hx Hkx].
  rewrite Forall_forall in Ha. apply (Ha x Hx).
  apply key_eqb_eq in Hk, Hkx. congruence.
Qed.

Lemma rows_of_perm (k : group_key) (df df' : list LongRow) :
  Permutation df df' -> Permutation (rows_of k df) (rows_of k df').
Proof.
  unfold rows_of.
  induction 1 as [|x l l' Hp IH|x y l|l l' l'' H1 IH1 H2 IH2]; cbn [filter].
  - constructor.
  - destruct (key_eqb (key_of x) k); [now constructor|exact IH].
  - destruct (key_eqb (key_of x) k), (key_eqb (key_of y) k);
      try reflexivity. apply perm_swap.
  - etransitivity; eassumption.
Qed.

Lemma feature_records_order_free (df df' : list LongRow) :
  one_row_per_frequency df -> Permutation df df' ->
  feature_records (groupby df') = feature_records (groupby df).
Proof.
  intros Hone Hperm. unfold groupby.
  rewrite (group_keys_perm df df' Hperm).
  induction (group_keys df) as [|k ks IH]; cbn [map feature_records];
    [reflexivity|].
  fold (rows_of k df'). fold (rows_of k df).
  rewrite (sort_values_order_free_compute (map point (rows_of k df))
             (map point (rows_of k df'))).
  - now rewrite IH.
  - apply FOP_apart_distinct. now apply rows_of_apart.
  - apply Permutation_map. now apply rows_of_perm.
Qed.

(** X12: when no two rows of the same test share a frequency, the
    feature table does not depend on the order of the rows of the
    long-format table. *)
Theorem build_order_free (df df' : list LongRow) :
  one_row_per_frequency df -> Permutation df df' ->
  build_impedance_feature_table df' = build_impedance_feature_table df.
Proof.
  intros Hone Hperm. unfold build_impedance_feature_table.
  now rewrite (feature_records_order_free df df' Hone Hperm).
Qed.

End TableFacts.

(** Rows of two tests: two records, each made from the rows of its test
    only. *)
Example two_tests_two_records :
  exists table rec1 rec2,
    build_impedance_feature_table (L := plain_library) two_tests = inr table
    /\ records table = [rec1; rec2]
    /\ record_key rec1 = stored_key [1; 100; 25; 50]
    /\ record_key rec2 = stored_key [2; 100; 25; 50]
    /\ getitem "R_hf_ohm" rec1 = Some (VFloat 0.5)
    /\ getitem "R_lf_ohm" rec1 = Some (VFloat 0.75)
    /\ getitem "R_hf_ohm" rec2 = Some (VFloat 4)
    /\ getitem "R_lf_ohm" rec2 = Some (VFloat 4).
Proof.
  do 3 eexists. split; [vm_compute; reflexivity|].
  split; [reflexivity|]. repeat split; reflexivity.
Qed.

Lemma compute_impedance_features_order_free_witness :
  distinct_frequencies sparse_example
  /\ Permutation sparse_example (List.rev sparse_example)
  /\ compute_impedance_features (L := plain_library) (List.rev sparse_example)
     = compute_impedance_features (L := plain_library) sparse_example.
Proof.
  assert (H1 : distinct_frequencies sparse_example).
  { apply FOP_apart_distinct. repeat constructor. }
  assert (H2 : Permutation sparse_example (List.rev sparse_example))
    by apply Permutation_rev.
  split; [exact H1|]. split; [exact H2|].
  exact (compute_impedance_features_order_free (L := plain_library)
           sparse_example (List.rev sparse_example) H1 H2).
Defined.

Lemma compute_impedance_features_resistances_witness :
  sparse_example <> []
  /\ Forall (fun p => is_nan (frequency_hz p) = false) sparse_example
  /\ exists feats,
       compute_impedance_features (L := plain_library) sparse_example
       = inr feats
       /\ exists r_hf r_lf,
            getitem "R_hf_ohm" feats = Some r_hf
            /\ getitem "R_lf_ohm" feats = Some r_lf
            /\ getitem "delta_R_ohm" feats = Some (r_lf - r_hf)%float.
Proof.
  assert (H1 : sparse_example <> []) by discriminate.
  assert (H2 : Forall (fun p => is_nan (frequency_hz p) = false)
                 sparse_example) by (repeat constructor).
  split; [exact H1|]. split; [exact H2|].
  destruct (compute_impedance_features_resistances (L := plain_library)
              sparse_example H1 H2)
    as [feats [p_hf [p_lf [Hf [_ [_ [_ [Hhf [Hlf Hd]]]]]]]]].
  exists feats. split; [exact Hf|].
  exists (z_real_ohm p_hf), (z_real_ohm p_lf). auto.
Defined.

Lemma compute_impedance_features_single_point_witness :
  In target_0p01 f_targets
  /\ exists feats,
       compute_impedance_features (L := plain_library)
         [mkRow3 50000 1 (-0.25)]%float = inr feats
       /\ getitem "R_hf_ohm" feats = Some 1%float
       /\ getitem "R_lf_ohm" feats = Some 1%float.
Proof.
  assert (H : In target_0p01 f_targets) by (left; reflexivity).
  split; [exact H|].
  destruct (compute_impedance_features_single_point (L := plain_library)
              (mkRow3 50000 1 (-0.25))%float target_0p01 H)
    as [feats [Hf [Hhf [Hlf _]]]].
  exists feats. auto.
Defined.


Lemma build_order_free_witness :
  one_row_per_frequency two_capacity_codes
  /\ Permutation two_capacity_codes (List.rev two_capacity_codes)
  /\ build_impedance_feature_table (L := plain_library)
       (List.rev two_capacity_codes)
     = build_impedance_feature_table (L := plain_library) two_capacity_codes.
Proof.
  assert (H1 : one_row_per_frequency two_capacity_codes).
  { repeat constructor. }
  assert (H2 : Permutation two_capacity_codes (List.rev two_capacity_codes))
    by apply Permutation_rev.
  split; [exact H1|]. split; [exact H2|].
  exact (build_order_free (L := plain_library) two_capacity_codes
           (List.rev two_capacity_codes) H1 H2).
Defined.

(* ------------------------------------------------------------------ *)
(** ** Filename decoder: padding and extension *)

Section DecoderPadding.

Lemma digit_not_space (c : ascii) :
  is_digit c = true -> negb (Py.isspace c) = true.
Proof.
  destruct c as [[|] [|] [|] [|] [|] [|] [|] [|]]; vm_compute; congruence.
Qed.

Lemma digit_numchar (c : ascii) : is_digit c = true -> is_numchar c = true.
Proof. intros H. unfold is_numchar. now rewrite H. Qed.

(** [int] on a string of digits, with or without a minus sign. *)
Lemma int_of_digit_string (s : string) (d : uint) :
  str_forall is_digit s = true ->
  Py.digits s false = Some d ->
  Py.int s = Some (Z.of_uint d)
  /\ Py.int (String "-" s) = Some (- Z.of_uint d).
Proof.
  intros Hs Hd. unfold Py.int.
  assert (Hns : str_forall (fun c => negb (Py.isspace c)) s = true)
    by (eapply str_forall_impl; [apply digit_not_space|exact Hs]).
  rewrite !strip_no_space;
    [|cbn [str_forall]; apply andb_true_iff; split; [reflexivity|exact Hns]
     |exact Hns].
  split; [|now rewrite Hd].
  destruct s as [|c r]; [discriminate Hd|].
  cbn [str_forall] in Hs. apply andb_true_iff in Hs. destruct Hs as [Hc _].
  destruct c as [[|] [|] [|] [|] [|] [|] [|] [|]];
    try discriminate Hc; cbv beta iota; rewrite Hd; reflexivity.
Qed.

Lemma zeros_digits (n : nat) (d : uint) :
  str_forall is_digit (zeros n ++ NilEmpty.string_of_uint d) = true.
Proof.
  induction n as [|n IH]; cbn [zeros append str_forall].
  - apply string_of_uint_digits.
  - now rewrite IH.
Qed.

Lemma digits_zeros (n : nat) (d : uint) :
  Py.digits (zeros n ++ NilEmpty.string_of_uint d) true
  = Some (Nat.iter n D0 d).
Proof.
  induction n as [|n IH]; cbn [zeros append Nat.iter].
  - apply digits_string_of_uint.
  - cbn [Py.digits Py.digit]. now rewrite IH.
Qed.

Lemma digits_zeros_first (n : nat) (d : uint) :
  d <> Nil ->
  Py.digits (zeros n ++ NilEmpty.string_of_uint d) false
  = Some (Nat.iter n D0 d).
Proof.
  intros Hd. destruct n as [|n]; cbn [zeros append Nat.iter].
  - now apply digits_string_of_uint_first.
  - cbn [Py.digits Py.digit]. now rewrite digits_zeros.
Qed.

Lemma of_uint_zeros (n : nat) (d : uint) :
  Z.of_uint (Nat.iter n D0 d) = Z.of_uint d.
Proof.
  induction n as [|n IH]; [reflexivity|]. cbn [Nat.iter]. exact IH.
Qed.

(** [int] reads a padded numeral as the integer. *)
Lemma int_padded (n : nat) (z : Z) : Py.int (padded n z) = Some z.
Proof.
  unfold padded.
  assert (H : forall p : positive,
             Py.int (zeros n ++ NilEmpty.string_of_uint (Pos.to_uint p))
             = Some (Z.pos p)
             /\ Py.int (String "-" (zeros n
                                    ++ NilEmpty.string_of_uint (Pos.to_uint p)))
                = Some (Z.neg p)).
  { intros p.
    destruct (int_of_digit_string _ _ (zeros_digits n (Pos.to_uint p))
                (digits_zeros_first n _ (DecimalPos.Unsigned.to_uint_nonnil p)))
      as [H1 H2].
    rewrite H1, H2, of_uint_zeros. unfold Z.of_uint.
    rewrite DecimalPos.Unsigned.of_to. split; reflexivity. }
  destruct z as [|p|p]; cbn [Z.to_int].
  - destruct (int_of_digit_string _ _ (zeros_digits n (D0 Nil))
                (digits_zeros_first n (D0 Nil) ltac:(discriminate)))
      as [H1 _].
    rewrite H1, of_uint_zeros. reflexivity.
  - apply H.
  - apply H.
Qed.

Lemma padded_numchars (n : nat) (z : Z) :
  str_forall is_numchar (padded n z) = true.
Proof.
  unfold padded.
  assert (H : forall d, str_forall is_numchar
                          (zeros n ++ NilEmpty.string_of_uint d) = true).
  { intros d. eapply str_forall_impl; [apply digit_numchar|].
    apply zeros_digits. }
  destruct (Z.to_int z); cbn [str_forall]; rewrite H; reflexivity.
Qed.

Lemma numchars_without (x : ascii) (s : string) :
  is_numchar x = false ->
  str_forall is_numchar s = true ->
  str_forall (fun c => negb (Ascii.eqb x c)) s = true
  /\ str_forall (fun c => negb (Ascii.eqb c x)) s = true.
Proof.
  intros Hx Hs. split; (eapply str_forall_impl; [|exact Hs]); intros c Hc;
    now apply (numchar_not x Hx c Hc).
Qed.

(** The decoder on a name whose five numerals are read by [int]. *)
Lemma parse_numerals (A B C D E ext : string) (a b c d e : Z) :
  str_forall is_numchar A = true -> str_forall is_numchar B = true ->
  str_forall is_numchar C = true -> str_forall is_numchar D = true ->
  str_forall is_numchar E = true ->
  Py.int A = Some a -> Py.int B = Some b -> Py.int C = Some c ->
  Py.int D = Some d -> Py.int E = Some e ->
  ext <> "" -> Py.rfind "." ext = None ->
  parse_eis_filename
    ("Cell" ++ A ++ "_" ++ B ++ "SOH_" ++ C ++ "degC_" ++ D ++ "SOC_"
     ++ E ++ "." ++ ext)
  = inr (mkIdentity a b c d e).
Proof.
  intros HA HB HC HD HE Ha Hb Hc Hd He Hext Hdot.
  replace ("Cell" ++ A ++ "_" ++ B ++ "SOH_" ++ C ++ "degC_" ++ D ++ "SOC_"
           ++ E ++ "." ++ ext)
    with (("Cell" ++ A) ++ "_" ++ (B ++ "SOH") ++ "_" ++ (C ++ "degC") ++ "_"
          ++ (D ++ "SOC") ++ "_" ++ E ++ "." ++ ext)
    by (rewrite !append_assoc; reflexivity).
  unfold parse_eis_filename.
  rewrite parse_five_fields; try assumption.
  - rewrite replace_tag_prefix by (now apply (numchars_without "C")).
    rewrite !replace_tag_suffix
      by (try reflexivity; apply (numchars_without "S") ||
          apply (numchars_without "d"); (reflexivity || assumption)).
    unfold int_or_raise. rewrite Ha, Hb, Hc, Hd, He. reflexivity.
  - rewrite str_forall_app. apply andb_true_iff. split; [reflexivity|].
    now apply (numchars_without "_").
  - rewrite str_forall_app. apply andb_true_iff. split; [|reflexivity].
    now apply (numchars_without "_").
  - rewrite str_forall_app. apply andb_true_iff. split; [|reflexivity].
    now apply (numchars_without "_").
  - rewrite str_forall_app. apply andb_true_iff. split; [|reflexivity].
    now apply (numchars_without "_").
  - now apply (numchars_without "_").
Qed.

(** X13: zero padding is not read.  A name written by the template with
    any number of zeros in front of the digits of each of its five
    numbers decodes to the five numbers, so names that differ in their
    padding only decode alike. *)
Theorem parse_eis_filename_ignores_padding (pad pad' : list nat)
  (id : TestIdentity) (ext : string) :
  ext <> "" -> Py.rfind "." ext = None ->
  parse_eis_filename (padded_name_of pad id ext) = inr id
  /\ parse_eis_filename (padded_name_of pad' id ext)
     = parse_eis_filename (padded_name_of pad id ext).
Proof.
  intros Hext Hdot.
  assert (H : forall p, parse_eis_filename (padded_name_of p id ext) = inr id).
  { intros p. unfold padded_name_of. destruct id as [a b c d e].
    cbn [cell_id soh_pct temp_c soc_pct capacity_code].
    apply parse_numerals; try apply padded_numchars; try apply int_padded;
      assumption. }
  split; [apply H|]. now rewrite !H.
Qed.

(** X14: the extension is not read.  Two names with the same stem and
    any two extensions decode to the same identity, or both fail. *)
Theorem parse_eis_filename_ignores_extension (x ext ext' : string)
  (id : TestIdentity) :
  x <> "" ->
  ext <> "" -> Py.rfind "." ext = None ->
  ext' <> "" -> Py.rfind "." ext' = None ->
  (parse_eis_filename (x ++ "." ++ ext) = inr id
   <-> parse_eis_filename (x ++ "." ++ ext') = inr id)
  /\ (raises (parse_eis_filename (x ++ "." ++ ext))
      <-> raises (parse_eis_filename (x ++ "." ++ ext'))).
Proof.
  intros Hx He Hd He' Hd'. unfold parse_eis_filename, raises.
  change (x ++ "." ++ ext) with (x ++ String "." ext).
  change (x ++ "." ++ ext') with (x ++ String "." ext').
  rewrite !stem_of_dotted by assumption.
  destruct (Py.split "_" x) as [|a [|b [|c [|d [|e [|y r]]]]]];
    try (split; split; intros H; try discriminate H;
         eexists; reflexivity).
  split; reflexivity.
Qed.

End DecoderPadding.

Lemma parse_eis_filename_ignores_padding_witness :
  "xls" <> "" /\ Py.rfind "." "xls" = None
  /\ padded_name_of [1; 0; 0; 1; 0]%nat (mkIdentity 2 95 15 5 9505) "xls"
     = padded_name
  /\ parse_eis_filename padded_name = inr (mkIdentity 2 95 15 5 9505).
Proof.
  assert (H1 : "xls" <> "") by discriminate.
  assert (H2 : Py.rfind "." "xls" = None) by reflexivity.
  split; [exact H1|]. split; [exact H2|]. split; [reflexivity|].
  exact (proj1 (parse_eis_filename_ignores_padding [1; 0; 0; 1; 0]%nat []
                  (mkIdentity 2 95 15 5 9505) "xls" H1 H2)).
Defined.

Lemma parse_eis_filename_ignores_extension_witness :
  "Cell2_95SOH_15degC_5SOC_9505" <> ""
  /\ "xls" <> "" /\ Py.rfind "." "xls" = None
  /\ "csv" <> "" /\ Py.rfind "." "csv" = None
  /\ (parse_eis_filename ("Cell2_95SOH_15degC_5SOC_9505" ++ "." ++ "xls")
      = inr (mkIdentity 2 95 15 5 9505)
      <-> parse_eis_filename ("Cell2_95SOH_15degC_5SOC_9505" ++ "." ++ "csv")
          = inr (mkIdentity 2 95 15 5 9505)).
Proof.
  assert (H0 : "Cell2_95SOH_15degC_5SOC_9505" <> "") by discriminate.
  assert (H1 : "xls" <> "") by discriminate.
  assert (H2 : Py.rfind "." "xls" = None) by reflexivity.
  assert (H3 : "csv" <> "") by discriminate.
  assert (H4 : Py.rfind "." "csv" = None) by reflexivity.
  repeat (split; [assumption|]).
  exact (proj1 (parse_eis_filename_ignores_extension
                  "Cell2_95SOH_15degC_5SOC_9505" "xls" "csv"
                  (mkIdentity 2 95 15 5 9505) H0 H1 H2 H3 H4)).
Defined.

(* ------------------------------------------------------------------ *)
(** ** Loading a directory *)

Section StringOrder.

Lemma string_compare_refl (s : string) : String.compare s s = Eq.
Proof.
  induction s as [|c s IH]; [reflexivity|]. cbn [String.compare].
  unfold Ascii.compare. now rewrite N.compare_refl.
Qed.

Lemma string_compare_lt_trans (a b c : string) :
  String.compare a b = Lt -> String.compare b c = Lt ->
  String.compare a c = Lt.
Proof.
  revert b c. induction a as [|x a IH]; intros [|y b] [|z c];
    cbn [String.compare]; try discriminate; try reflexivity.
  unfold Ascii.compare.
  destruct (N.compare_spec (N_of_ascii x) (N_of_ascii y)) as [Hxy|Hxy|Hxy];
    destruct (N.compare_spec (N_of_ascii y) (N_of_ascii z)) as [Hyz|Hyz|Hyz];
    try discriminate; intros H1 H2.
  - rewrite Hxy, Hyz, N.compare_refl. eapply IH; eassumption.
  - rewrite Hxy. now apply N.compare_lt_iff in Hyz as ->.
  - rewrite <- Hyz. now apply N.compare_lt_iff in Hxy as ->.
  - assert (H : (N_of_ascii x < N_of_ascii z)%N) by lia.
    now apply N.compare_lt_iff in H as ->.
Qed.

Lemma string_ltb_irrefl (s : string) : String.ltb s s = false.
Proof. unfold String.ltb. now rewrite string_compare_refl. Qed.

Lemma string_ltb_trans (a b c : string) :
  String.ltb a b = true -> String.ltb b c = true -> String.ltb a c = true.
Proof.
  unfold String.ltb. intros H1 H2.
  rewrite (string_compare_lt_trans a b c); [reflexivity| |].
  - destruct (String.compare a b); try discriminate; reflexivity.
  - destruct (String.compare b c); try discriminate; reflexivity.
Qed.

Lemma string_leb_false (a b : string) :
  String.leb a b = false -> String.ltb b a = true.
Proof.
  unfold String.leb, String.ltb. rewrite (String.compare_antisym b a).
  destruct (String.compare a b); try discriminate; reflexivity.
Qed.

Lemma string_leb_neq (a b : string) :
  String.leb a b = true -> a <> b -> String.ltb a b = true.
Proof.
  unfold String.leb, String.ltb. intros H Hne.
  destruct (String.compare a b) eqn:Hc; try discriminate; [|reflexivity].
  apply String.compare_eq_iff in Hc. contradiction.
Qed.

End StringOrder.

Lemma parse_eis_filename_value_error (name : string) (e : exn) :
  parse_eis_filename name = inl e -> exists msg, e = ValueError msg.
Proof.
  unfold parse_eis_filename, int_or_raise.
  destruct (Py.split "_" (stem name)) as [|a [|b [|c [|d [|x [|y r]]]]]];
    try (intros [= <-]; eexists; reflexivity).
  destruct (Py.int (Py.replace "Cell" "" a));
    [|intros [= <-]; eexists; reflexivity].
  destruct (Py.int (Py.replace "SOH" "" b));
    [|intros [= <-]; eexists; reflexivity].
  destruct (Py.int (Py.replace "degC" "" c));
    [|intros [= <-]; eexists; reflexivity].
  destruct (Py.int (Py.replace "SOC" "" d));
    [|intros [= <-]; eexists; reflexivity].
  destruct (Py.int x); [|intros [= <-]; eexists; reflexivity].
  discriminate.
Qed.

Section DirectoryFacts.
Context {L : Library}.

Lemma insert_file_perm (f : file) (l : list file) :
  Permutation (insert_file f l) (f :: l).
Proof.
  induction l as [|g r IH]; cbn [insert_file]; [reflexivity|].
  destruct (String.leb (fst f) (fst g)); [reflexivity|].
  rewrite IH. apply perm_swap.
Qed.

Lemma sorted_files_perm (l : list file) : Permutation (sorted_files l) l.
Proof.
  induction l as [|f r IH]; cbn [sorted_files]; [reflexivity|].
  rewrite insert_file_perm. now constructor.
Qed.

Lemma sorted_files_nil (l : list file) : sorted_files l = [] <-> l = [].
Proof.
  split.
  - intros H. apply Permutation_nil. rewrite <- H. apply sorted_files_perm.
  - intros ->. reflexivity.
Qed.

Lemma insert_file_sorted (f : file) (l : list file) :
  Sorted file_le l -> Sorted file_le (insert_file f l).
Proof.
  induction 1 as [|g r Hs IH Hhd]; cbn [insert_file].
  - repeat constructor.
  - destruct (String.leb (fst f) (fst g)) eqn:Hle.
    + constructor; [now constructor|now constructor].
    + assert (Hgf : file_le g f).
      { unfold file_le. destruct (String.leb_total (fst f) (fst g)) as [H|H];
          [congruence|exact H]. }
      constructor; [exact IH|].
      destruct r as [|g' r']; cbn [insert_file]; [now constructor|].
      destruct (String.leb (fst f) (fst g')); [now constructor|].
      inversion Hhd; subst. now constructor.
Qed.

Lemma sorted_files_sorted (l : list file) : Sorted file_le (sorted_files l).
Proof.
  induction l as [|f r IH]; cbn [sorted_files]; [constructor|].
  now apply insert_file_sorted.
Qed.

Lemma file_lt_irrefl (f : file) : ~ file_lt f f.
Proof. unfold file_lt. rewrite string_ltb_irrefl. discriminate. Qed.

Lemma file_lt_trans (f g h : file) : file_lt f g -> file_lt g h -> file_lt f h.
Proof. unfold file_lt. apply string_ltb_trans. Qed.

Lemma insert_file_strict (f : file) (l : list file) :
  StronglySorted file_lt l ->
  Forall (fun g => fst f <> fst g) l ->
  StronglySorted file_lt (insert_file f l).
Proof.
  induction 1 as [|g r Hs IH Hg]; intros Hne; cbn [insert_file].
  - repeat constructor.
  - inversion Hne as [|? ? Hfg Hfr]; subst.
    destruct (String.leb (fst f) (fst g)) eqn:Hle.
    + assert (Hlt : file_lt f g) by (now apply string_leb_neq).
      constructor; [now constructor|]. constructor; [exact Hlt|].
      rewrite Forall_forall in *. intros x Hx.
      eapply file_lt_trans; [exact Hlt|now apply Hg].
    + assert (Hlt : file_lt g f) by (now apply string_leb_false).
      constructor; [now apply IH|].
      rewrite Forall_forall in *. intros x Hx.
      apply (Permutation_in _ (insert_file_perm f r)) in Hx.
      destruct Hx as [<-|Hx]; [exact Hlt|now apply Hg].
Qed.

Lemma sorted_files_strict (l : list file) :
  NoDup (map fst l) -> StronglySorted file_lt (sorted_files l).
Proof.
  induction l as [|f r IH]; cbn [sorted_files map]; intros Hnd;
    [constructor|].
  inversion Hnd as [|? ? Hnotin Hnd']; subst.
  apply insert_file_strict; [now apply IH|].
  apply Forall_forall. intros g Hg Heq.
  apply (Permutation_in _ (sorted_files_perm r)) in Hg.
  apply Hnotin. rewrite Heq. now apply in_map.
Qed.

Lemma sorted_files_order_free (l l' : list file) :
  NoDup (map fst l) -> Permutation l l' ->
  sorted_files l' = sorted_files l.
Proof.
  intros Hnd Hperm.
  apply (strictly_sorted_unique file_lt file_lt_irrefl file_lt_trans).
  - apply sorted_files_strict.
    eapply Permutation_NoDup; [|exact Hnd]. now apply Permutation_map.
  - now apply sorted_files_strict.
  - intros x. split; intros Hx.
    + apply (Permutation_in _ (sorted_files_perm l')) in Hx.
      apply (Permutation_in _ (Permutation_sym (sorted_files_perm l))).
      eapply Permutation_in; [symmetry; exact Hperm|exact Hx].
    + apply (Permutation_in _ (sorted_files_perm l)) in Hx.
      apply (Permutation_in _ (Permutation_sym (sorted_files_perm l'))).
      eapply Permutation_in; [exact Hperm|exact Hx].
Qed.

Lemma parse_all_entries (files : list file)
  (index : list (TestIdentity * Sheet)) :
  parse_all files = inr index <-> Forall2 entry_of files index.
Proof.
  revert index. induction files as [|[name sheet] rest IH]; intros index.
  - cbn [parse_all]. split.
    + intros [= <-]. constructor.
    + intros H. inversion H. reflexivity.
  - cbn [parse_all]. split.
    + destruct (parse_eis_filename name) as [e|id] eqn:Hp;
        [discriminate|]. cbn [bind].
      destruct (parse_all rest) as [e|records] eqn:Hr; [discriminate|].
      cbn [bind ret]. intros [= <-]. constructor.
      * split; [exact Hp|reflexivity].
      * now apply IH.
    + intros H. inversion H as [|? [id sh] ? index' [Hp Hs] Hrest]; subst.
      cbn [fst snd] in Hp, Hs. subst sh. rewrite Hp. cbn [bind].
      apply IH in Hrest. rewrite Hrest. reflexivity.
Qed.

Lemma parse_all_raises (files : list file) :
  Exists (fun f => raises (parse_eis_filename (fst f))) files ->
  exists msg, parse_all files = inl (ValueError msg).
Proof.
  induction files as [|[name sheet] rest IH]; intros Hex; [inversion Hex|].
  cbn [parse_all].
  destruct (parse_eis_filename name) as [e|id] eqn:Hp.
  - destruct (parse_eis_filename_value_error name e Hp) as [msg ->].
    eexists. reflexivity.
  - cbn [bind]. destruct IH as [msg Hmsg].
    + inversion Hex as [? ? [e He]|? ? Hlater]; subst; [|exact Hlater].
      cbn [fst] in He. congruence.
    + rewrite Hmsg. eexists. reflexivity.
Qed.

Lemma parse_all_names (files files' : list file) :
  map fst files' = map fst files ->
  forall e, parse_all files = inl e -> parse_all files' = inl e.
Proof.
  revert files'. induction files as [|[name sheet] rest IH];
    intros [|[name' sheet'] rest'] Hnames e; try discriminate.
  cbn [map fst] in Hnames. injection Hnames as -> Hrest.
  cbn [parse_all]. destruct (parse_eis_filename name) as [e'|id];
    [trivial|]. cbn [bind].
  destruct (parse_all rest) as [e'|records] eqn:Hr; [|discriminate].
  cbn [bind]. intros [= <-]. now rewrite (IH rest' Hrest e' eq_refl).
Qed.

Lemma insert_file_names (f f' : file) (l l' : list file) :
  fst f' = fst f -> map fst l' = map fst l ->
  map fst (insert_file f' l') = map fst (insert_file f l).
Proof.
  intros Hf. revert l'. induction l as [|g r IH]; intros [|g' r'] Hl;
    try discriminate; cbn [insert_file map].
  - now rewrite Hf.
  - cbn [map] in Hl. injection Hl as Hg Hr. rewrite Hf, Hg.
    destruct (String.leb (fst f) (fst g)); cbn [map].
    + now rewrite Hf, Hg, Hr.
    + now rewrite Hg, (IH r' Hr).
Qed.

Lemma sorted_files_names (l l' : list file) :
  map fst l' = map fst l ->
  map fst (sorted_files l') = map fst (sorted_files l).
Proof.
  revert l'. induction l as [|f r IH]; intros [|f' r'] Hl; try discriminate;
    [reflexivity|].
  cbn [map] in Hl. injection Hl as Hf Hr. cbn [sorted_files].
  apply insert_file_names; [exact Hf|now apply IH].
Qed.

Lemma parse_all_value_error (files : list file) (e : exn) :
  parse_all files = inl e -> exists msg, e = ValueError msg.
Proof.
  induction files as [|[name sheet] rest IH]; [discriminate|].
  cbn [parse_all]. destruct (parse_eis_filename name) as [e'|id] eqn:Hp.
  - intros [= <-]. eapply parse_eis_filename_value_error; exact Hp.
  - cbn [bind]. destruct (parse_all rest) as [e'|records]; [|discriminate].
    intros [= <-]. now apply IH.
Qed.

Lemma load_all_eis_value_error (index : list (TestIdentity * Sheet))
  (e : exn) :
  load_all_eis index = inl e -> exists msg, e = ValueError msg.
Proof.
  unfold load_all_eis.
  destruct (narrow_or_not index) as [Hex|Hall].
  - rewrite (load_records_narrow index Hex). intros [= <-].
    eexists. reflexivity.
  - rewrite (load_records_ok index Hall). cbn [bind].
    destruct index; [|discriminate]. intros [= <-]. eexists. reflexivity.
Qed.

Lemma load_all_eis_wide (index : list (TestIdentity * Sheet))
  (df : list LongRow) :
  load_all_eis index = inr df ->
  index <> [] /\ Forall (fun e => (3 <= ncols (snd e))%nat) index.
Proof.
  unfold load_all_eis. intros H.
  destruct (narrow_or_not index) as [Hex|Hall].
  - rewrite (load_records_narrow index Hex) in H. discriminate H.
  - split; [|exact Hall]. intros ->. discriminate H.
Qed.

Lemma load_all_eis_ok (index : list (TestIdentity * Sheet)) :
  index <> [] -> Forall (fun e => (3 <= ncols (snd e))%nat) index ->
  load_all_eis index = inr (flat_map tagged_rows index).
Proof.
  intros Hne Hall. unfold load_all_eis.
  rewrite (load_records_ok index Hall). cbn [bind].
  destruct index as [|e rest]; [congruence|].
  now rewrite flat_map_concat_map.
Qed.

(** What the function does once the listing is sorted. *)
Lemma load_and_process_sorted (l : list file) :
  l <> [] ->
  load_and_process_dib_eis l
  = match (eis_index <- parse_all (sorted_files l) ;; load_all_eis eis_index)
    with
    | inl e => inl (Raised e)
    | inr df => inr df
    end.
Proof.
  intros Hne. unfold load_and_process_dib_eis.
  destruct (sorted_files l) as [|f r] eqn:Hs; [|reflexivity].
  apply (proj1 (sorted_files_nil l)) in Hs. exfalso. apply Hne. exact Hs.
Qed.

(** X15: when the directory is loaded, the long-format table is made, in
    ascending order of the file names, of the valid rows of each file,
    tagged with the identity decoded from the name of the file. *)
Theorem load_and_process_dib_eis_rows (l : list file) (df : list LongRow) :
  load_and_process_dib_eis l = inr df ->
  exists files index,
    Permutation files l
    /\ Sorted file_le files
    /\ Forall2 entry_of files index
    /\ df = flat_map tagged_rows index.
Proof.
  intros H.
  assert (Hne : l <> []) by (intros ->; discriminate H).
  rewrite (load_and_process_sorted l Hne) in H.
  destruct (parse_all (sorted_files l)) as [e|index] eqn:Hp;
    [discriminate H|]. cbn [bind] in H.
  destruct (load_all_eis index) as [e|df'] eqn:Hl; [discriminate H|].
  injection H as <-.
  exists (sorted_files l), index.
  split; [apply sorted_files_perm|]. split; [apply sorted_files_sorted|].
  split; [now apply parse_all_entries|now apply load_all_eis_flat].
Qed.

Lemma entries_of_loadable (files : list file) :
  Forall loadable files ->
  exists index,
    Forall2 entry_of files index
    /\ Forall (fun e => (3 <= ncols (snd e))%nat) index.
Proof.
  induction 1 as [|f rest [[id Hid] Hcols] Hrest [index [Hidx Hwide]]].
  - exists []. split; constructor.
  - exists ((id, snd f) :: index). split; constructor; try assumption.
    split; [exact Hid|reflexivity].
Qed.

(** X16: the directory is loaded exactly when it has at least one file,
    every file name decodes and every sheet has at least three columns;
    one file that is not so makes the whole call fail. *)
Theorem load_and_process_dib_eis_returns_iff (l : list file) :
  (exists df, load_and_process_dib_eis l = inr df)
  <-> l <> [] /\ Forall loadable l.
Proof.
  split.
  - intros [df H].
    assert (Hne : l <> []) by (intros ->; discriminate H).
    split; [exact Hne|].
    rewrite (load_and_process_sorted l Hne) in H.
    destruct (parse_all (sorted_files l)) as [e|index] eqn:Hp;
      [discriminate H|]. cbn [bind] in H.
    destruct (load_all_eis index) as [e|df'] eqn:Hl; [discriminate H|].
    apply parse_all_entries in Hp.
    destruct (load_all_eis_wide index df' Hl) as [_ Hwide].
    eapply Permutation_Forall; [apply sorted_files_perm|].
    clear -Hp Hwide. induction Hp as [|f e files index [Hid Hs] Hrest IH];
      [constructor|].
    inversion Hwide as [|? ? He Hw]; subst. constructor; [|now apply IH].
    split; [eauto|]. now rewrite <- Hs.
  - intros [Hne Hall].
    rewrite (load_and_process_sorted l Hne).
    assert (Hsorted : Forall loadable (sorted_files l)).
    { eapply Permutation_Forall; [symmetry; apply sorted_files_perm|exact Hall]. }
    destruct (entries_of_loadable _ Hsorted) as [index [Hidx Hwide]].
    rewrite (proj2 (parse_all_entries _ _) Hidx). cbn [bind].
    rewrite load_all_eis_ok; [eexists; reflexivity| |exact Hwide].
    intros ->. inversion Hidx as [Hs|]. symmetry in Hs.
    apply (proj1 (sorted_files_nil l)) in Hs. exfalso. apply Hne. exact Hs.
Qed.

(** X17: what the function raises.  It raises its [FileNotFoundError]
    exactly when the directory has no file; every other failure is a
    [ValueError] of the decoder or of the assembler; and the names are
    all decoded before any sheet is looked at, so that with a name that
    does not decode the outcome is the same whatever the sheets hold. *)
Theorem load_and_process_dib_eis_errors (l : list file) :
  ((exists msg, load_and_process_dib_eis l = inl (FileNotFoundError msg))
   <-> l = [])
  /\ (forall e, load_and_process_dib_eis l = inl (Raised e) ->
                exists msg, e = ValueError msg)
  /\ (Exists (fun f => raises (parse_eis_filename (fst f))) l ->
      forall l', map fst l' = map fst l ->
        load_and_process_dib_eis l' = load_and_process_dib_eis l
        /\ exists msg,
             load_and_process_dib_eis l = inl (Raised (ValueError msg))).
Proof.
  split; [|split].
  - split.
    + intros [msg H]. destruct l as [|f r]; [reflexivity|].
      rewrite load_and_process_sorted in H by discriminate.
      destruct (eis_index <- parse_all (sorted_files (f :: r)) ;;
                load_all_eis eis_index); discriminate H.
    + intros ->. eexists. reflexivity.
  - intros e H. destruct l as [|f r]; [discriminate H|].
    rewrite load_and_process_sorted in H by discriminate.
    destruct (parse_all (sorted_files (f :: r))) as [e'|index] eqn:Hp.
    + cbn [bind] in H. injection H as <-.
      eapply parse_all_value_error; exact Hp.
    + cbn [bind] in H.
      destruct (load_all_eis index) as [e'|df] eqn:Hl; [|discriminate H].
      injection H as <-. eapply load_all_eis_value_error; exact Hl.
  - intros Hex l' Hnames.
    assert (Hne : l <> []) by (intros ->; inversion Hex).
    assert (Hne' : l' <> []).
    { intros ->. destruct l; [congruence|discriminate Hnames]. }
    assert (Hex' : Exists (fun f => raises (parse_eis_filename (fst f)))
                     (sorted_files l)).
    { apply Exists_exists. apply Exists_exists in Hex.
      destruct Hex as [f [Hf Hr]]. exists f. split; [|exact Hr].
      eapply Permutation_in; [symmetry; apply sorted_files_perm|exact Hf]. }
    destruct (parse_all_raises _ Hex') as [msg Hmsg].
    rewrite (load_and_process_sorted l Hne), (load_and_process_sorted l' Hne').
    rewrite (parse_all_names (sorted_files l) (sorted_files l')
               (sorted_files_names l l' Hnames) _ Hmsg), Hmsg.
    cbn [bind]. split; [reflexivity|]. eexists. reflexivity.
Qed.

(** X18: the order in which the directory lists its files does not
    matter: for files with different names, every rearrangement of the
    listing gives the same outcome. *)
Theorem load_and_process_dib_eis_order_free (l l' : list file) :
  NoDup (map fst l) -> Permutation l l' ->
  load_and_process_dib_eis l' = load_and_process_dib_eis l.
Proof.
  intros Hnd Hperm. unfold load_and_process_dib_eis.
  now rewrite (sorted_files_order_free l l' Hnd Hperm).
Qed.

End DirectoryFacts.

Lemma load_and_process_dib_eis_rows_witness :
  load_and_process_dib_eis (L := plain_library) (List.rev two_files)
  = inr two_capacity_codes
  /\ exists files index,
       Permutation files (List.rev two_files)
       /\ Sorted file_le files
       /\ Forall2 entry_of files index
       /\ two_capacity_codes = flat_map (tagged_rows (L := plain_library)) index.
Proof.
  assert (H : load_and_process_dib_eis (L := plain_library)
                (List.rev two_files) = inr two_capacity_codes)
    by reflexivity.
  split; [exact H|].
  exact (load_and_process_dib_eis_rows (L := plain_library) _ _ H).
Defined.

Lemma load_and_process_dib_eis_errors_witness :
  Exists (fun f => raises (parse_eis_filename (fst f)))
    [("notes.xls", sheet_header_only)]
  /\ map fst [("notes.xls", sheet_with_infinity)]
     = map fst [("notes.xls", sheet_header_only)]
  /\ load_and_process_dib_eis (L := plain_library)
       [("notes.xls", sheet_with_infinity)]
     = load_and_process_dib_eis (L := plain_library)
         [("notes.xls", sheet_header_only)].
Proof.
  assert (H1 : Exists (fun f => raises (parse_eis_filename (fst f)))
                 [("notes.xls", sheet_header_only)]).
  { constructor. eexists. vm_compute. reflexivity. }
  assert (H2 : map fst [("notes.xls", sheet_with_infinity)]
               = map fst [("notes.xls", sheet_header_only)]) by reflexivity.
  split; [exact H1|]. split; [exact H2|].
  exact (proj1 (proj2 (proj2 (load_and_process_dib_eis_errors
                                (L := plain_library) _)) H1 _ H2)).
Defined.

Lemma load_and_process_dib_eis_order_free_witness :
  NoDup (map fst two_files)
  /\ Permutation two_files (List.rev two_files)
  /\ load_and_process_dib_eis (L := plain_library) (List.rev two_files)
     = load_and_process_dib_eis (L := plain_library) two_files.
Proof.
  assert (H1 : NoDup (map fst two_files)).
  { repeat constructor; cbn [In map fst two_files]; intuition discriminate. }
  assert (H2 : Permutation two_files (List.rev two_files))
    by apply Permutation_rev.
  split; [exact H1|]. split; [exact H2|].
  exact (load_and_process_dib_eis_order_free (L := plain_library)
           two_files (List.rev two_files) H1 H2).
Defined.
